(** * NoiseState: the BOLT #8 handshake and transport cipher of node-lightning

    A shallow embedding of [packages/lntools-noise/lib/noise-state.ts] and the
    properties of its handshake acts, message framing, nonce arithmetic and
    key rotation.

    Layout:
    - [Buf]       the Node.js [Buffer] operations that the class uses;
    - [SHA256], [HKDF]  the two hash primitives, after their standards;
    - [Crypto]    the interface imported from [@lntools/crypto];
    - [Noise]     the class [NoiseState], method by method;
    - [Ref]       a concrete instance of [Crypto], and [Vectors], a
                  handshake run on it;
    - the properties: initialization, validation errors and handshake
      nonces; the transport cipher and its rotation; frames; key agreement;
      and the same properties on the concrete run. *)

From Stdlib Require Import String Ascii Strings.Byte.
From Stdlib Require Import List NArith Lia Bool Arith.
Import ListNotations.


(* ================================================================= *)
(** ** Buffers *)

(** A [Buffer] is a sequence of bytes.  The class never writes into a buffer
    it shares: the only in-place writes are the two [writeUInt16LE] calls on
    [sn] and [rn], each of which is a private [Buffer.alloc(12)].  Buffers
    are therefore modelled as values. *)
Definition Buffer := list byte.

Module Buf.

Local Open Scope N_scope.

(** The byte holding the low eight bits of [n]. *)
Definition byte_of_N (n : N) : byte :=
  match Byte.of_N (N.land n 255) with
  | Some b => b
  | None => x00
  end.

(** [Buffer.alloc(n)]: [n] zero bytes. *)
Definition alloc (n : nat) : Buffer := repeat x00 n.

(** [Buffer.from(s)] for an ASCII string. *)
Definition from (s : string) : Buffer := list_byte_of_string s.

(** [Buffer.from(s, "hex")]: one byte per pair of hex digits, up to the
    first pair that is not one. *)
Definition hex_digit (a : ascii) : option N :=
  let n := N_of_ascii a in
  if (48 <=? n) && (n <=? 57) then Some (n - 48)
  else if (97 <=? n) && (n <=? 102) then Some (n - 87)
  else if (65 <=? n) && (n <=? 70) then Some (n - 55)
  else None.

Fixpoint from_hex (s : string) : Buffer :=
  match s with
  | String a (String b rest) =>
      match hex_digit a, hex_digit b with
      | Some x, Some y => byte_of_N (16 * x + y) :: from_hex rest
      | _, _ => []
      end
  | _ => []
  end.

(** [b.slice(i)] and [b.slice(i, j)] for [0 <= i <= j]; both clamp to the
    length of [b], as [firstn] and [skipn] do. *)
Definition slice_from (i : nat) (b : Buffer) : Buffer := skipn i b.
Definition slice (i j : nat) (b : Buffer) : Buffer := firstn (j - i) (skipn i b).

(** [b.length] as a JS number. *)
Definition len (b : Buffer) : N := N.of_nat (length b).

(** [b.readUInt16LE(off)], [b.readUInt16BE(off)]: [None] stands for the
    [RangeError] raised when [off + 2 > b.length]. *)
Definition readUInt16LE (b : Buffer) (off : nat) : option N :=
  match nth_error b off, nth_error b (S off) with
  | Some lo, Some hi => Some (Byte.to_N lo + 256 * Byte.to_N hi)
  | _, _ => None
  end.

Definition readUInt16BE (b : Buffer) (off : nat) : option N :=
  match nth_error b off, nth_error b (S off) with
  | Some hi, Some lo => Some (256 * Byte.to_N hi + Byte.to_N lo)
  | _, _ => None
  end.

(** Overwrite two bytes at [off]; the caller has checked the range. *)
Definition put2 (b : Buffer) (off : nat) (b0 b1 : byte) : Buffer :=
  firstn off b ++ b0 :: b1 :: skipn (S (S off)) b.

(** [b.writeUInt16LE(v, off)], [b.writeUInt16BE(v, off)]: [None] stands for
    the [RangeError] raised when [v > 65535] or [off + 2 > b.length]. *)
Definition writeUInt16LE (b : Buffer) (v : N) (off : nat) : option Buffer :=
  if (v <=? 65535) && (S (S off) <=? length b)%nat
  then Some (put2 b off (byte_of_N v) (byte_of_N (v / 256)))
  else None.

Definition writeUInt16BE (b : Buffer) (v : N) (off : nat) : option Buffer :=
  if (v <=? 65535) && (S (S off) <=? length b)%nat
  then Some (put2 b off (byte_of_N (v / 256)) (byte_of_N v))
  else None.

(** Bytewise exclusive or, truncated to the shorter operand. *)
Definition xor_byte (x y : byte) : byte :=
  byte_of_N (N.lxor (Byte.to_N x) (Byte.to_N y)).

Fixpoint xor (a b : Buffer) : Buffer :=
  match a, b with
  | x :: a', y :: b' => xor_byte x y :: xor a' b'
  | _, _ => []
  end.

(** [v === 0] for [v = b[0]], which is [undefined] on an empty buffer. *)
Definition is_zero (v : option byte) : bool :=
  match v with
  | Some b => Byte.eqb b x00
  | None => false
  end.

(** Decidable equality of buffers. *)
Fixpoint eqb (a b : Buffer) : bool :=
  match a, b with
  | [], [] => true
  | x :: a', y :: b' => Byte.eqb x y && eqb a' b'
  | _, _ => false
  end.

End Buf.

(* ================================================================= *)
(** ** SHA-256 (FIPS 180-4) *)

(** [sha256] and [hkdf] come from the package [@lntools/crypto], whose
    sources are not part of this development.  The class is modelled over
    any implementation of them (see [Crypto] below); the two modules here
    give the functions that their names and the specification denote, for
    the places where a property is evaluated on concrete bytes. *)

Module SHA256.

Local Open Scope N_scope.

(** 32-bit words as [N], truncated with the mask [2^32 - 1]. *)
Definition mask32 : N := 4294967295.
Definition w32 (x : N) : N := N.land x mask32.
Definition add32 (x y : N) : N := w32 (x + y).
Definition rotr (n x : N) : N := N.lor (N.shiftr x n) (w32 (N.shiftl x (32 - n))).
Definition not32 (x : N) : N := N.lxor x mask32.

Definition ch (x y z : N) := N.lxor (N.land x y) (N.land (not32 x) z).
Definition maj (x y z : N) := N.lxor (N.lxor (N.land x y) (N.land x z)) (N.land y z).
Definition bsig0 x := N.lxor (N.lxor (rotr 2 x) (rotr 13 x)) (rotr 22 x).
Definition bsig1 x := N.lxor (N.lxor (rotr 6 x) (rotr 11 x)) (rotr 25 x).
Definition ssig0 x := N.lxor (N.lxor (rotr 7 x) (rotr 18 x)) (N.shiftr x 3).
Definition ssig1 x := N.lxor (N.lxor (rotr 17 x) (rotr 19 x)) (N.shiftr x 10).

(** The constants are the leading fractional bits of the square and cube
    roots of the first primes; they are computed rather than listed. *)
Definition primes : list N :=
  [2; 3; 5; 7; 11; 13; 17; 19; 23; 29; 31; 37; 41; 43; 47; 53;
   59; 61; 67; 71; 73; 79; 83; 89; 97; 101; 103; 107; 109; 113; 127; 131;
   137; 139; 149; 151; 157; 163; 167; 173; 179; 181; 191; 193; 197; 199;
   211; 223; 227; 229; 233; 239; 241; 251; 257; 263; 269; 271; 277; 281;
   283; 293; 307; 311].

(** Integer cube root by bisection on the bits of the result. *)
Fixpoint cbrt_from (bit : nat) (n acc : N) : N :=
  match bit with
  | O => acc
  | S bit' =>
      let cand := acc + 2 ^ N.of_nat bit' in
      cbrt_from bit' n (if cand * cand * cand <=? n then cand else acc)
  end.

Definition round_constants : list N :=
  Eval vm_compute in map (fun p => w32 (cbrt_from 40 (p * 2 ^ 96) 0)) primes.

Definition initial_words : list N :=
  Eval vm_compute in map (fun p => w32 (N.sqrt (p * 2 ^ 64))) (firstn 8 primes).

(** The eight working variables, also the chaining value. *)
Record regs := Regs { ra : N; rb : N; rc : N; rd : N; re : N; rf : N; rg : N; rh : N }.

Definition regs_of_list (l : list N) : regs :=
  Regs (nth 0 l 0) (nth 1 l 0) (nth 2 l 0) (nth 3 l 0)
       (nth 4 l 0) (nth 5 l 0) (nth 6 l 0) (nth 7 l 0).

Definition iv : regs := Eval vm_compute in regs_of_list initial_words.

Definition round (r : regs) (kw : N * N) : regs :=
  let t1 := add32 (add32 (add32 (add32 (rh r) (bsig1 (re r))) (ch (re r) (rf r) (rg r))) (fst kw)) (snd kw) in
  let t2 := add32 (bsig0 (ra r)) (maj (ra r) (rb r) (rc r)) in
  Regs (add32 t1 t2) (ra r) (rb r) (rc r) (add32 (rd r) t1) (re r) (rf r) (rg r).

(** Big-endian words of a block. *)
Fixpoint words (n : nat) (b : Buffer) : list N :=
  match n with
  | O => []
  | S n' =>
      let byte_at i := Byte.to_N (nth i b x00) in
      N.lor (N.lor (N.shiftl (byte_at 0%nat) 24) (N.shiftl (byte_at 1%nat) 16))
            (N.lor (N.shiftl (byte_at 2%nat) 8) (byte_at 3%nat))
        :: words n' (skipn 4 b)
  end.

(** The message schedule, newest word first. *)
Fixpoint schedule (n : nat) (rev_ws : list N) : list N :=
  match n with
  | O => rev_ws
  | S n' =>
      let wt := add32 (add32 (add32 (ssig1 (nth 1 rev_ws 0)) (nth 6 rev_ws 0))
                             (ssig0 (nth 14 rev_ws 0))) (nth 15 rev_ws 0) in
      schedule n' (wt :: rev_ws)
  end.

Definition compress (h : regs) (block : Buffer) : regs :=
  let ws := rev (schedule 48 (rev (words 16 block))) in
  let r := fold_left round (combine round_constants ws) h in
  Regs (add32 (ra h) (ra r)) (add32 (rb h) (rb r)) (add32 (rc h) (rc r)) (add32 (rd h) (rd r))
       (add32 (re h) (re r)) (add32 (rf h) (rf r)) (add32 (rg h) (rg r)) (add32 (rh h) (rh r)).

Definition be (n : nat) (x : N) : Buffer :=
  map (fun i => Buf.byte_of_N (N.shiftr x (8 * N.of_nat i))) (rev (seq 0 n)).

Definition pad (msg : Buffer) : Buffer :=
  let l := length msg in
  msg ++ x80 :: repeat x00 ((64 - (l + 9) mod 64) mod 64)%nat ++ be 8 (8 * N.of_nat l).

Fixpoint blocks (n : nat) (b : Buffer) (h : regs) : regs :=
  match n with
  | O => h
  | S n' => blocks n' (skipn 64 b) (compress h (firstn 64 b))
  end.

Definition be32 (x : N) : Buffer :=
  [Buf.byte_of_N (N.shiftr x 24); Buf.byte_of_N (N.shiftr x 16);
   Buf.byte_of_N (N.shiftr x 8); Buf.byte_of_N x].

Definition digest (r : regs) : Buffer :=
  be32 (ra r) ++ be32 (rb r) ++ be32 (rc r) ++ be32 (rd r) ++
  be32 (re r) ++ be32 (rf r) ++ be32 (rg r) ++ be32 (rh r).

(** Modelled from the spec: [sha256(bytes) -> 32B] of [@lntools/crypto] is
    missing from the sources; this is SHA-256 as FIPS 180-4 defines it. *)
Definition hash (msg : Buffer) : Buffer :=
  let p := pad msg in
  digest (blocks (length p / 64) p iv).

End SHA256.

(* ================================================================= *)
(** ** HMAC-SHA256 (RFC 2104) and HKDF-SHA256 (RFC 5869) *)

Module HKDF.

Definition block_key (key : Buffer) : Buffer :=
  let k := if (64 <? length key)%nat then SHA256.hash key else key in
  k ++ repeat x00 (64 - length k).

Definition hmac (key msg : Buffer) : Buffer :=
  let k := block_key key in
  SHA256.hash (Buf.xor k (repeat x5c 64) ++ SHA256.hash (Buf.xor k (repeat x36 64) ++ msg)).

(** Modelled from the spec: [hkdf(salt:32B, ikm:bytes) -> 64B] of
    [@lntools/crypto] is missing from the sources; the specification
    describes it as HKDF-SHA256 with empty info, yielding two 32-byte
    halves.  RFC 5869: extract with [salt], then expand to 64 bytes. *)
Definition hkdf (salt ikm : Buffer) : Buffer :=
  let prk := hmac salt ikm in
  let t1 := hmac prk [x01] in
  let t2 := hmac prk (t1 ++ [x02]) in
  t1 ++ t2.

End HKDF.

(* ================================================================= *)
(** ** The primitives imported from [@lntools/crypto] *)

(** [noise-state.ts] imports [sha256], [hkdf], [ecdh], [ccpEncrypt],
    [ccpDecrypt] and [getPublicKey].  The class is modelled over any
    implementation of that interface.  [ecdh] and [ccpDecrypt] are the two
    that throw on data received from the peer (an invalid point, a bad tag):
    [None] stands for their exception.  All six are typed on [Buffer]; a
    field that is still [undefined] never reaches them in the model, the
    [TypeError] of Node's argument check being raised where the field is
    read (see [Noise.use]). *)
Class Crypto := {
  sha256 : Buffer -> Buffer;
  hkdf : Buffer -> Buffer -> Buffer;
  ecdh : Buffer -> Buffer -> option Buffer;
  ccpEncrypt : Buffer -> Buffer -> Buffer -> Buffer -> Buffer;
  ccpDecrypt : Buffer -> Buffer -> Buffer -> Buffer -> option Buffer;
  getPublicKey : Buffer -> Buffer
}.

(* ================================================================= *)
(** ** The class [NoiseState] *)

Module Noise.

(** What a method can throw. *)
Inductive exn :=
| Error (msg : string)   (* [throw new Error(msg)] in the class itself *)
| TypeError              (* a field still [undefined] used as a Buffer *)
| RangeError             (* a Buffer integer read or write out of range *)
| CryptoError.           (* raised inside [ecdh] or [ccpDecrypt] *)

Inductive completion (A : Type) :=
| Return (a : A)
| Throw (e : exn).
Arguments Return {A} a.
Arguments Throw {A} e.

(** One call of the AEAD, with its arguments in source order:
    key, nonce, associated data, then plaintext or ciphertext. *)
Inductive aead_call :=
| Encrypt (key nonce ad pt : Buffer)
| Decrypt (key nonce ad ct : Buffer).

Definition nonce_of (c : aead_call) : Buffer :=
  match c with
  | Encrypt _ n _ _ => n
  | Decrypt _ n _ _ => n
  end.

(** The fields of the object.  [ls], [lpk], [es] and [epk] are set by the
    constructor; the others are [undefined] ([None]) until a method
    assigns them.  [logger] only receives debug lines and is left out. *)
Record NoiseState := {
  ls : Buffer;
  lpk : Buffer;
  es : Buffer;
  epk : Buffer;
  rpk : option Buffer;
  repk : option Buffer;
  h : option Buffer;
  ck : option Buffer;
  rk : option Buffer;
  sk : option Buffer;
  sn : option Buffer;
  rn : option Buffer;
  tempK1 : option Buffer;
  tempK2 : option Buffer;
  tempK3 : option Buffer
}.

Definition protocolName : Buffer := Buf.from "Noise_XK_secp256k1_ChaChaPoly_SHA256".
Definition prologue : Buffer := Buf.from "lightning".

(** Field assignments [this.f = v]. *)
Definition set_rpk v s := {| ls := ls s; lpk := lpk s; es := es s; epk := epk s;
  rpk := v; repk := repk s; h := h s; ck := ck s; rk := rk s; sk := sk s;
  sn := sn s; rn := rn s; tempK1 := tempK1 s; tempK2 := tempK2 s; tempK3 := tempK3 s |}.
Definition set_repk v s := {| ls := ls s; lpk := lpk s; es := es s; epk := epk s;
  rpk := rpk s; repk := v; h := h s; ck := ck s; rk := rk s; sk := sk s;
  sn := sn s; rn := rn s; tempK1 := tempK1 s; tempK2 := tempK2 s; tempK3 := tempK3 s |}.
Definition set_h v s := {| ls := ls s; lpk := lpk s; es := es s; epk := epk s;
  rpk := rpk s; repk := repk s; h := v; ck := ck s; rk := rk s; sk := sk s;
  sn := sn s; rn := rn s; tempK1 := tempK1 s; tempK2 := tempK2 s; tempK3 := tempK3 s |}.
Definition set_ck v s := {| ls := ls s; lpk := lpk s; es := es s; epk := epk s;
  rpk := rpk s; repk := repk s; h := h s; ck := v; rk := rk s; sk := sk s;
  sn := sn s; rn := rn s; tempK1 := tempK1 s; tempK2 := tempK2 s; tempK3 := tempK3 s |}.
Definition set_rk v s := {| ls := ls s; lpk := lpk s; es := es s; epk := epk s;
  rpk := rpk s; repk := repk s; h := h s; ck := ck s; rk := v; sk := sk s;
  sn := sn s; rn := rn s; tempK1 := tempK1 s; tempK2 := tempK2 s; tempK3 := tempK3 s |}.
Definition set_sk v s := {| ls := ls s; lpk := lpk s; es := es s; epk := epk s;
  rpk := rpk s; repk := repk s; h := h s; ck := ck s; rk := rk s; sk := v;
  sn := sn s; rn := rn s; tempK1 := tempK1 s; tempK2 := tempK2 s; tempK3 := tempK3 s |}.
Definition set_sn v s := {| ls := ls s; lpk := lpk s; es := es s; epk := epk s;
  rpk := rpk s; repk := repk s; h := h s; ck := ck s; rk := rk s; sk := sk s;
  sn := v; rn := rn s; tempK1 := tempK1 s; tempK2 := tempK2 s; tempK3 := tempK3 s |}.
Definition set_rn v s := {| ls := ls s; lpk := lpk s; es := es s; epk := epk s;
  rpk := rpk s; repk := repk s; h := h s; ck := ck s; rk := rk s; sk := sk s;
  sn := sn s; rn := v; tempK1 := tempK1 s; tempK2 := tempK2 s; tempK3 := tempK3 s |}.
Definition set_tempK1 v s := {| ls := ls s; lpk := lpk s; es := es s; epk := epk s;
  rpk := rpk s; repk := repk s; h := h s; ck := ck s; rk := rk s; sk := sk s;
  sn := sn s; rn := rn s; tempK1 := v; tempK2 := tempK2 s; tempK3 := tempK3 s |}.
Definition set_tempK2 v s := {| ls := ls s; lpk := lpk s; es := es s; epk := epk s;
  rpk := rpk s; repk := repk s; h := h s; ck := ck s; rk := rk s; sk := sk s;
  sn := sn s; rn := rn s; tempK1 := tempK1 s; tempK2 := v; tempK3 := tempK3 s |}.
Definition set_tempK3 v s := {| ls := ls s; lpk := lpk s; es := es s; epk := epk s;
  rpk := rpk s; repk := repk s; h := h s; ck := ck s; rk := rk s; sk := sk s;
  sn := sn s; rn := rn s; tempK1 := tempK1 s; tempK2 := tempK2 s; tempK3 := v |}.

(** *** Method bodies as computations

    A method body runs on the object, may assign fields, may throw, and
    calls the AEAD.  Its outcome keeps all three: how it completed, the
    object as the body left it (assignments made before a [throw] stay),
    and the AEAD calls it made, in order. *)
Record outcome (A : Type) := Outcome {
  result : completion A;
  final : NoiseState;
  calls : list aead_call
}.
Arguments Outcome {A} result final calls.
Arguments result {A} o.
Arguments final {A} o.
Arguments calls {A} o.

Definition M (A : Type) := NoiseState -> outcome A.

Definition ret {A} (a : A) : M A := fun s => Outcome (Return a) s [].
Definition throw {A} (e : exn) : M A := fun s => Outcome (Throw e) s [].

(** Sequencing: a [throw] skips the rest and keeps the object as it is. *)
Definition bind {A B} (m : M A) (k : A -> M B) : M B := fun s =>
  match m s with
  | Outcome (Return a) s1 cs1 =>
      match k a s1 with
      | Outcome r s2 cs2 => Outcome r s2 (cs1 ++ cs2)
      end
  | Outcome (Throw e) s1 cs1 => Outcome (Throw e) s1 cs1
  end.

Declare Scope noise_scope.
Delimit Scope noise_scope with noise.
Notation "x <- m ;; k" := (bind m (fun x => k))
  (at level 61, m at next level, right associativity) : noise_scope.
Notation "m ;; k" := (bind m (fun _ => k))
  (at level 61, right associativity) : noise_scope.
Local Open Scope noise_scope.

(** [this.f = v] *)
Definition assign (upd : NoiseState -> NoiseState) : M unit :=
  fun s => Outcome (Return tt) (upd s) [].

(** A constructor-set field, always a Buffer. *)
Definition own (f : NoiseState -> Buffer) : M Buffer :=
  fun s => Outcome (Return (f s)) s [].

(** A field used where a Buffer is required ([Buffer.concat], a method
    call on it, an argument of a primitive): a [TypeError] while it is
    still [undefined]. *)
Definition use (f : NoiseState -> option Buffer) : M Buffer :=
  fun s => match f s with
           | Some b => Outcome (Return b) s []
           | None => Outcome (Throw TypeError) s []
           end.

(** A Buffer integer access that may be out of range. *)
Definition ranged {A} (r : option A) : M A :=
  match r with
  | Some a => ret a
  | None => throw RangeError
  end.

(** [if (c) throw new Error(msg)] *)
Definition throw_if (c : bool) (msg : string) : M unit :=
  if c then throw (Error msg) else ret tt.

(** [if (c) body] *)
Definition when (c : bool) (body : M unit) : M unit :=
  if c then body else ret tt.

Section Methods.

Context {crypto : Crypto}.

Definition do_ecdh (pub priv : Buffer) : M Buffer :=
  match ecdh pub priv with
  | Some ss => ret ss
  | None => throw CryptoError
  end.

Definition do_ccpEncrypt (key nonce ad pt : Buffer) : M Buffer :=
  fun s => Outcome (Return (ccpEncrypt key nonce ad pt)) s [Encrypt key nonce ad pt].

Definition do_ccpDecrypt (key nonce ad ct : Buffer) : M Buffer :=
  fun s => Outcome (match ccpDecrypt key nonce ad ct with
                    | Some pt => Return pt
                    | None => Throw CryptoError
                    end) s [Decrypt key nonce ad ct].

(** [constructor({ ls, es, logger })] *)
Definition new (ls es : Buffer) : NoiseState :=
  {| ls := ls; lpk := getPublicKey ls; es := es; epk := getPublicKey es;
     rpk := None; repk := None; h := None; ck := None; rk := None; sk := None;
     sn := None; rn := None; tempK1 := None; tempK2 := None; tempK3 := None |}.

(** [_initialize(pubkey)] *)
Definition _initialize (pubkey : Buffer) : M unit :=
  (* 1. h = SHA-256(protocolName) *)
  assign (set_h (Some (sha256 protocolName)));;
  (* 2. ck = h *)
  assign (fun s => set_ck (h s) s);;
  (* 3. h = SHA-256(h || prologue) *)
  h0 <- use h;;
  assign (set_h (Some (sha256 (h0 ++ prologue))));;
  (* 4. h = SHA-256(h || pubkey) *)
  h1 <- use h;;
  assign (set_h (Some (sha256 (h1 ++ pubkey)))).

(** [initiatorAct1(rpk)] *)
Definition initiatorAct1 (rpk_arg : Buffer) : M Buffer :=
  assign (set_rpk (Some rpk_arg));;
  pk <- use rpk;;
  _initialize pk;;
  (* 2. h = SHA-256(h || epk) *)
  h0 <- use h;; e <- own epk;;
  assign (set_h (Some (sha256 (h0 ++ e))));;
  (* 3. es = ECDH(e.priv, rs) *)
  rs <- use rpk;; e_priv <- own es;;
  ss <- do_ecdh rs e_priv;;
  (* 4. ck, temp_k1 = HKDF(ck, es) *)
  ck0 <- use ck;;
  let tempK1_ := hkdf ck0 ss in
  assign (set_ck (Some (Buf.slice 0 32 tempK1_)));;
  assign (set_tempK1 (Some (Buf.slice_from 32 tempK1_)));;
  (* 5. c = encryptWithAD(temp_k1, 0, h, zero) *)
  k <- use tempK1;; h1 <- use h;;
  c <- do_ccpEncrypt k (Buf.alloc 12) h1 (Buf.alloc 0);;
  (* 6. h = SHA-256(h || c) *)
  h2 <- use h;;
  assign (set_h (Some (sha256 (h2 ++ c))));;
  (* 7. m = 0 || epk || c *)
  e' <- own epk;;
  ret (Buf.alloc 1 ++ e' ++ c).

(** [initiatorAct2(m)] *)
Definition initiatorAct2 (m : Buffer) : M unit :=
  (* 1. read exactly 50 bytes off the stream *)
  throw_if (negb (length m =? 50)) "ACT2_READ_FAILED";;
  (* 2. parse the read message m into v, re, and c *)
  let v := nth_error (Buf.slice 0 1 m) 0 in
  let re := Buf.slice 1 34 m in
  let c := Buf.slice_from 34 m in
  (* 2a. convert re to public key *)
  assign (set_repk (Some re));;
  (* 3. assert version is known version *)
  throw_if (negb (Buf.is_zero v)) "ACT2_BAD_VERSION";;
  (* 4. sha256(h || re.serializedCompressed) *)
  h0 <- use h;; re0 <- use repk;;
  assign (set_h (Some (sha256 (h0 ++ re0))));;
  (* 5. ss = ECDH(re, e.priv) *)
  re1 <- use repk;; e_priv <- own es;;
  ss <- do_ecdh re1 e_priv;;
  (* 6. ck, temp_k2 = HKDF(ck, ss) *)
  ck0 <- use ck;;
  let tempK2_ := hkdf ck0 ss in
  assign (set_ck (Some (Buf.slice 0 32 tempK2_)));;
  assign (set_tempK2 (Some (Buf.slice_from 32 tempK2_)));;
  (* 7. p = decryptWithAD() *)
  k <- use tempK2;; h1 <- use h;;
  _ <- do_ccpDecrypt k (Buf.alloc 12) h1 c;;
  (* 8. h = sha256(h || c) *)
  h2 <- use h;;
  assign (set_h (Some (sha256 (h2 ++ c)))).

(** [initiatorAct3()] *)
Definition initiatorAct3 : M Buffer :=
  (* 1. c = encryptWithAD(temp_k2, 1, h, lpk) *)
  k2 <- use tempK2;; h0 <- use h;; s_pub <- own lpk;;
  (* the nonce is Buffer.from([0, 0, 0, 0, 1, 0, 0, 0, 0, 0, 0, 0]) *)
  c <- do_ccpEncrypt k2
         [x00; x00; x00; x00; x01; x00; x00; x00; x00; x00; x00; x00]
         h0 s_pub;;
  (* 2. h = sha256(h || c) *)
  h1 <- use h;;
  assign (set_h (Some (sha256 (h1 ++ c))));;
  (* 3. ss = ECDH(re, s.priv) *)
  re0 <- use repk;; s_priv <- own ls;;
  ss <- do_ecdh re0 s_priv;;
  (* 4. ck, temp_k3 = HKDF(ck, ss) *)
  ck0 <- use ck;;
  let tempK3_ := hkdf ck0 ss in
  assign (set_ck (Some (Buf.slice 0 32 tempK3_)));;
  assign (set_tempK3 (Some (Buf.slice_from 32 tempK3_)));;
  (* 5. t = encryptWithAD(temp_k3, 0, h, zero) *)
  k3 <- use tempK3;; h2 <- use h;;
  t <- do_ccpEncrypt k3 (Buf.alloc 12) h2 (Buf.alloc 0);;
  (* 6. sk, rk = hkdf(ck, zero) *)
  ck1 <- use ck;;
  let sk_ := hkdf ck1 (Buf.alloc 0) in
  assign (set_rk (Some (Buf.slice_from 32 sk_)));;
  assign (set_sk (Some (Buf.slice 0 32 sk_)));;
  (* 7. rn = 0, sn = 0 *)
  assign (set_sn (Some (Buf.alloc 12)));;
  assign (set_rn (Some (Buf.alloc 12)));;
  (* 8. send m = 0 || c || t *)
  ret (Buf.alloc 1 ++ c ++ t).

(** [receiveAct1(m)] *)
Definition receiveAct1 (m : Buffer) : M unit :=
  s_pub <- own lpk;;
  _initialize s_pub;;
  (* 1. read exactly 50 bytes off the stream *)
  throw_if (negb (length m =? 50)) "ACT1_READ_FAILED";;
  (* 2. parse the read message m into v, re, and c *)
  let v := nth_error (Buf.slice 0 1 m) 0 in
  let re := Buf.slice 1 34 m in
  let c := Buf.slice_from 34 m in
  assign (set_repk (Some re));;
  (* 3. assert version is known version *)
  throw_if (negb (Buf.is_zero v)) "ACT1_BAD_VERSION";;
  (* 4. sha256(h || re.serializedCompressed) *)
  h0 <- use h;;
  assign (set_h (Some (sha256 (h0 ++ re))));;
  (* 5. ss = ECDH(re, ls.priv) *)
  s_priv <- own ls;;
  ss <- do_ecdh re s_priv;;
  (* 6. ck, temp_k1 = HKDF(ck, ss) *)
  ck0 <- use ck;;
  let tempK1_ := hkdf ck0 ss in
  assign (set_ck (Some (Buf.slice 0 32 tempK1_)));;
  assign (set_tempK1 (Some (Buf.slice_from 32 tempK1_)));;
  (* 7. p = decryptWithAD(temp_k1, 0, h, c) *)
  k <- use tempK1;; h1 <- use h;;
  _ <- do_ccpDecrypt k (Buf.alloc 12) h1 c;;
  (* 8. h = sha256(h || c) *)
  h2 <- use h;;
  assign (set_h (Some (sha256 (h2 ++ c)))).

(** [recieveAct2()] (spelled as in the source) *)
Definition recieveAct2 : M Buffer :=
  (* 2. h = sha256(h || e.pub.compressed()) *)
  h0 <- use h;; e <- own epk;;
  assign (set_h (Some (sha256 (h0 ++ e))));;
  (* 3. ss = ecdh(re, e.priv) *)
  re0 <- use repk;; e_priv <- own es;;
  ss <- do_ecdh re0 e_priv;;
  (* 4. ck, temp_k2 = hkdf(ck, ss) *)
  ck0 <- use ck;;
  let tempK2_ := hkdf ck0 ss in
  assign (set_ck (Some (Buf.slice 0 32 tempK2_)));;
  assign (set_tempK2 (Some (Buf.slice_from 32 tempK2_)));;
  (* 5. c = encryptWithAd(temp_k2, 0, h, zero) *)
  k <- use tempK2;; h1 <- use h;;
  c <- do_ccpEncrypt k (Buf.alloc 12) h1 (Buf.alloc 0);;
  (* 6. h = sha256(h || c) *)
  h2 <- use h;;
  assign (set_h (Some (sha256 (h2 ++ c))));;
  (* 7. m = 0 || e.pub.compressed() || c *)
  e' <- own epk;;
  ret (Buf.alloc 1 ++ e' ++ c).

(** [receiveAct3(m)] *)
Definition receiveAct3 (m : Buffer) : M unit :=
  (* 1. read exactly 66 bytes from the network buffer *)
  throw_if (negb (length m =? 66)) "ACT3_READ_FAILED";;
  (* 2. parse m into v, c, t *)
  let v := nth_error (Buf.slice 0 1 m) 0 in
  let c := Buf.slice 1 50 m in
  let t := Buf.slice_from 50 m in
  (* 3. validate v is recognized *)
  throw_if (negb (Buf.is_zero v)) "ACT3_BAD_VERSION";;
  (* 4. rs = decryptWithAD(temp_k2, 1, h, c) *)
  k2 <- use tempK2;; h0 <- use h;;
  rs <- do_ccpDecrypt k2 (Buf.from_hex "000000000100000000000000") h0 c;;
  assign (set_rpk (Some rs));;
  (* 5. h = sha256(h || c) *)
  h1 <- use h;;
  assign (set_h (Some (sha256 (h1 ++ c))));;
  (* 6. ss = ECDH(rs, e.priv) *)
  rs0 <- use rpk;; e_priv <- own es;;
  ss <- do_ecdh rs0 e_priv;;
  (* 7. ck, temp_k3 = hkdf(cs, ss) *)
  ck0 <- use ck;;
  let tempK3_ := hkdf ck0 ss in
  assign (set_ck (Some (Buf.slice 0 32 tempK3_)));;
  assign (set_tempK3 (Some (Buf.slice_from 32 tempK3_)));;
  (* 8. p = decryptWithAD(temp_k3, 0, h, t) *)
  k3 <- use tempK3;; h2 <- use h;;
  _ <- do_ccpDecrypt k3 (Buf.alloc 12) h2 t;;
  (* 9. rk, sk = hkdf(ck, zero) *)
  ck1 <- use ck;;
  let sk_ := hkdf ck1 (Buf.alloc 0) in
  assign (set_rk (Some (Buf.slice 0 32 sk_)));;
  assign (set_sk (Some (Buf.slice_from 32 sk_)));;
  (* 10. rn = 0, sn = 0 *)
  assign (set_rn (Some (Buf.alloc 12)));;
  assign (set_sn (Some (Buf.alloc 12))).

(** [_incrementSendingNonce()]: the write is in place on the buffer of
    [sn], which no other field shares. *)
Definition _incrementSendingNonce : M N :=
  n0 <- use sn;;
  r <- ranged (Buf.readUInt16LE n0 4);;
  let newValue := (r + 1)%N in
  n1 <- use sn;;
  n2 <- ranged (Buf.writeUInt16LE n1 newValue 4);;
  assign (set_sn (Some n2));;
  ret newValue.

(** [_incrementRecievingNonce()] *)
Definition _incrementRecievingNonce : M N :=
  n0 <- use rn;;
  r <- ranged (Buf.readUInt16LE n0 4);;
  let newValue := (r + 1)%N in
  n1 <- use rn;;
  n2 <- ranged (Buf.writeUInt16LE n1 newValue 4);;
  assign (set_rn (Some n2));;
  ret newValue.

(** [_rotateSendingKeys()] *)
Definition _rotateSendingKeys : M unit :=
  ck0 <- use ck;; sk0 <- use sk;;
  let result_ := hkdf ck0 sk0 in
  assign (set_sk (Some (Buf.slice_from 32 result_)));;
  assign (set_ck (Some (Buf.slice 0 32 result_)));;
  assign (set_sn (Some (Buf.alloc 12))).

(** [_rotateRecievingKeys()] *)
Definition _rotateRecievingKeys : M unit :=
  ck0 <- use ck;; rk0 <- use rk;;
  let result_ := hkdf ck0 rk0 in
  assign (set_rk (Some (Buf.slice_from 32 result_)));;
  assign (set_ck (Some (Buf.slice 0 32 result_)));;
  assign (set_rn (Some (Buf.alloc 12))).

(** [encryptMessage(m)] *)
Definition encryptMessage (m : Buffer) : M Buffer :=
  (* step 1/2. serialize m length into int16 *)
  l <- ranged (Buf.writeUInt16BE (Buf.alloc 2) (Buf.len m) 0);;
  (* step 3. encrypt l, using chachapoly1305, sn, sk *)
  k0 <- use sk;; n0 <- use sn;;
  lc <- do_ccpEncrypt k0 n0 (Buf.alloc 0) l;;
  (* step 3a: increment sn *)
  v0 <- _incrementSendingNonce;;
  when (1000 <=? v0)%N _rotateSendingKeys;;
  (* step 4 encrypt m using chachapoly1305, sn, sk *)
  k1 <- use sk;; n1 <- use sn;;
  c <- do_ccpEncrypt k1 n1 (Buf.alloc 0) m;;
  (* step 4a: increment sn *)
  v1 <- _incrementSendingNonce;;
  when (1000 <=? v1)%N _rotateSendingKeys;;
  (* step 5 return m to be sent *)
  ret (lc ++ c).

(** [decryptLength(lc)] *)
Definition decryptLength (lc : Buffer) : M N :=
  k <- use rk;; n <- use rn;;
  l <- do_ccpDecrypt k n (Buf.alloc 0) lc;;
  v <- _incrementRecievingNonce;;
  when (1000 <=? v)%N _rotateRecievingKeys;;
  ranged (Buf.readUInt16BE l 0).

(** [decryptMessage(c)] *)
Definition decryptMessage (c : Buffer) : M Buffer :=
  k <- use rk;; n <- use rn;;
  m <- do_ccpDecrypt k n (Buf.alloc 0) c;;
  v <- _incrementRecievingNonce;;
  when (1000 <=? v)%N _rotateRecievingKeys;;
  ret m.

End Methods.

End Noise.

(* ================================================================= *)
(** ** A concrete instance of the primitives *)

(** [sha256] and [hkdf] are SHA-256 and HKDF-SHA256.  [getPublicKey],
    [ecdh] and the AEAD are stand-ins, not secp256k1 and ChaCha20-Poly1305:
    they keep the sizes (33-byte public keys, 32-byte secrets, 16-byte
    tags) and the laws the properties rest on (both sides compute the same
    shared secret; decryption checks the tag and returns what was
    encrypted), and none of the secrecy.  The properties that need the
    primitives only through those laws are instantiated here; the
    properties about [h], [ck] and the rotated keys are evaluated with the
    real hash functions. *)
Module Ref.

(** A private key as 32 bytes, zero-padded or cut. *)
Definition pad32 (b : Buffer) : Buffer := firstn 32 (b ++ repeat x00 32).

(** Stand-in for [getPublicKey]: a 33-byte key, prefix [02]. *)
Definition public_key (priv : Buffer) : Buffer := x02 :: pad32 priv.

(** Stand-in for [ecdh]: the hash of the two private keys combined; it
    rejects a public key that is not 33 bytes long. *)
Definition shared_secret (pub priv : Buffer) : option Buffer :=
  if length pub =? 33
  then Some (SHA256.hash (Buf.xor (tl pub) (pad32 priv)))
  else None.

(** Stand-in for the AEAD: the plaintext followed by a 16-byte tag over
    key, nonce, associated data and plaintext; opening checks the tag. *)
Definition tag (key nonce ad pt : Buffer) : Buffer :=
  firstn 16 (HKDF.hmac key (nonce ++ ad ++ pt)).

Definition seal (key nonce ad pt : Buffer) : Buffer :=
  pt ++ tag key nonce ad pt.

Definition open (key nonce ad ct : Buffer) : option Buffer :=
  let n := length ct - 16 in
  if (16 <=? length ct) && Buf.eqb (skipn n ct) (tag key nonce ad (firstn n ct))
  then Some (firstn n ct)
  else None.

Definition crypto : Crypto := {|
  sha256 := SHA256.hash;
  hkdf := HKDF.hkdf;
  ecdh := shared_secret;
  ccpEncrypt := seal;
  ccpDecrypt := open;
  getPublicKey := public_key
|}.

(** The private keys of the BOLT #8 test vectors. *)
Definition initiator_ls : Buffer := repeat x11 32.
Definition initiator_es : Buffer := repeat x12 32.
Definition responder_ls : Buffer := repeat x21 32.
Definition responder_es : Buffer := repeat x22 32.

End Ref.
(* ================================================================= *)
(** ** Vocabulary of the properties *)

Import Noise.

Section Vocabulary.

Context {crypto : Crypto}.

(** The handshake hash seeded with a public key. *)
Definition seeded_hash (seed_pub : Buffer) : Buffer :=
  sha256 (sha256 (sha256 protocolName ++ prologue) ++ seed_pub).

(** The transport nonce holding counter [v]: four zero bytes, [v] as a
    little-endian uint16 in bytes 4..5, six zero bytes. *)
Definition counter_nonce (v : N) : Buffer :=
  Buf.alloc 4 ++ [Buf.byte_of_N v; Buf.byte_of_N (v / 256)] ++ Buf.alloc 6.

(** The two-byte big-endian length prefix of a message. *)
Definition length_prefix (m : Buffer) : Buffer :=
  [Buf.byte_of_N (Buf.len m / 256); Buf.byte_of_N (Buf.len m)].

(** The nonce of the two act-3 operations on the initiator's static key,
    written as an array of numbers in [initiatorAct3] and as a hex string
    in [receiveAct3]. *)
Definition nonce1 : Buffer :=
  [x00; x00; x00; x00; x01; x00; x00; x00; x00; x00; x00; x00].

(** An AEAD call made with the all-zero nonce. *)
Definition zero_nonce (c : aead_call) : Prop := nonce_of c = Buf.alloc 12.

(** One direction of the transport cipher as the specification describes
    it (4.10, 4.11): a key, the chaining key, and the message counter. *)
Record cipher := Cipher { key : Buffer; chain : Buffer; count : N }.

(** The specification's step after each use of the key: add one to the
    counter; when it reaches 1000, take the new chaining key and the new
    key from the two halves of [hkdf(ck, key)] and restart at 0. *)
Definition advance (c : cipher) : cipher :=
  if (1000 <=? count c + 1)%N
  then Cipher (skipn 32 (hkdf (chain c) (key c)))
              (firstn 32 (hkdf (chain c) (key c))) 0
  else Cipher (key c) (chain c) (count c + 1).

(** The object holds cipher [c] in its sending, or receiving, fields. *)
Definition sending (s : NoiseState) (c : cipher) : Prop :=
  sk s = Some (key c) /\ ck s = Some (chain c) /\
  sn s = Some (counter_nonce (count c)) /\ (count c < 1000)%N.

Definition receiving (s : NoiseState) (c : cipher) : Prop :=
  rk s = Some (key c) /\ ck s = Some (chain c) /\
  rn s = Some (counter_nonce (count c)) /\ (count c < 1000)%N.

(** The object with cipher [c] stored in its sending, or receiving,
    fields; every other field is kept. *)
Definition with_sending (c : cipher) (s : NoiseState) : NoiseState :=
  set_sn (Some (counter_nonce (count c)))
    (set_ck (Some (chain c)) (set_sk (Some (key c)) s)).

Definition with_receiving (c : cipher) (s : NoiseState) : NoiseState :=
  set_rn (Some (counter_nonce (count c)))
    (set_ck (Some (chain c)) (set_rk (Some (key c)) s)).

(** The cipher that a rotation makes of [c]. *)
Definition rotated (c : cipher) : cipher :=
  Cipher (skipn 32 (hkdf (chain c) (key c))) (firstn 32 (hkdf (chain c) (key c))) 0.

(** [s'] has the fields of [s] other than [ck], [sk] and [sn]; other
    than [ck], [rk] and [rn]. *)
Definition same_but_sending (s s' : NoiseState) : Prop :=
  ls s' = ls s /\ lpk s' = lpk s /\ es s' = es s /\ epk s' = epk s /\
  rpk s' = rpk s /\ repk s' = repk s /\ h s' = h s /\
  rk s' = rk s /\ rn s' = rn s /\
  tempK1 s' = tempK1 s /\ tempK2 s' = tempK2 s /\ tempK3 s' = tempK3 s.

Definition same_but_receiving (s s' : NoiseState) : Prop :=
  ls s' = ls s /\ lpk s' = lpk s /\ es s' = es s /\ epk s' = epk s /\
  rpk s' = rpk s /\ repk s' = repk s /\ h s' = h s /\
  sk s' = sk s /\ sn s' = sn s /\
  tempK1 s' = tempK1 s /\ tempK2 s' = tempK2 s /\ tempK3 s' = tempK3 s.

(** An outcome with one more AEAD call in front. *)
Definition after_call {A} (c : aead_call) (o : outcome A) : outcome A :=
  Outcome (result o) (final o) (c :: calls o).

(** The objects a connection can hold once its act 3 has returned: the
    object left by a completed [initiatorAct3] or [receiveAct3], and then
    by any transport call, whether that call returned or threw. *)
Inductive transport : NoiseState -> Prop :=
| transport_initiator s m :
    result (initiatorAct3 s) = Return m -> transport (final (initiatorAct3 s))
| transport_responder s m :
    result (receiveAct3 m s) = Return tt -> transport (final (receiveAct3 m s))
| transport_encrypt s m :
    transport s -> transport (final (encryptMessage m s))
| transport_length s lc :
    transport s -> transport (final (decryptLength lc s))
| transport_message s c :
    transport s -> transport (final (decryptMessage c s)).

(** A transport call, and the calls of the AEAD that a sequence of transport
    calls makes, each call running on the object the one before left
    (also after a call that threw). *)
Inductive op :=
| Send (m : Buffer)
| ReadLength (lc : Buffer)
| ReadMessage (c : Buffer).

Definition perform (o : op) (s : NoiseState) : NoiseState * list aead_call :=
  match o with
  | Send m => (final (encryptMessage m s), calls (encryptMessage m s))
  | ReadLength lc => (final (decryptLength lc s), calls (decryptLength lc s))
  | ReadMessage c => (final (decryptMessage c s), calls (decryptMessage c s))
  end.

Fixpoint perform_all (os : list op) (s : NoiseState) : list aead_call :=
  match os with
  | [] => []
  | o :: os' => snd (perform o s) ++ perform_all os' (fst (perform o s))
  end.

(** The uses of the sending key in a list of AEAD calls: key and nonce of
    every encryption.  The uses of the receiving key: key and nonce of
    every decryption that the AEAD accepted (a rejected one throws before
    the nonce is touched). *)
Definition seals (cs : list aead_call) : list (Buffer * Buffer) :=
  flat_map (fun c => match c with
                     | Encrypt k n _ _ => [(k, n)]
                     | Decrypt _ _ _ _ => []
                     end) cs.

Definition opens (cs : list aead_call) : list (Buffer * Buffer) :=
  flat_map (fun c => match c with
                     | Encrypt _ _ _ _ => []
                     | Decrypt k n ad ct =>
                         match ccpDecrypt k n ad ct with
                         | Some _ => [(k, n)]
                         | None => []
                         end
                     end) cs.

(** The rotation schedule of one direction, as the specification words it:
    starting with key [k] at counter [v], every use takes the current key
    and the nonce of the current counter; the use at counter 999 is the
    last one of its key, and the next use takes counter 0 and a key that is
    the second half of [hkdf(ck, k)] for some chaining key. *)
Inductive schedule : Buffer -> N -> list (Buffer * Buffer) -> Prop :=
| schedule_done k v : schedule k v []
| schedule_keep k v uses :
    (v + 1 < 1000)%N ->
    schedule k (v + 1) uses ->
    schedule k v ((k, counter_nonce v) :: uses)
| schedule_rotate k v ck0 uses :
    (v + 1 = 1000)%N ->
    schedule (skipn 32 (hkdf ck0 k)) 0 uses ->
    schedule k v ((k, counter_nonce v) :: uses).

End Vocabulary.


(* ================================================================= *)
(** ** A concrete run *)

(** The handshake on [Ref.crypto] between the initiator and the responder
    of the BOLT #8 test vectors, each act applied to the object the
    previous act left and to the message the peer produced. *)
Module Vectors.

Import Noise.

#[local] Existing Instance Ref.crypto.

(** The message a producing act returned; empty if it threw. *)
Definition message_of (o : outcome Buffer) : Buffer :=
  match result o with
  | Return m => m
  | Throw _ => []
  end.

Definition buffer_of (o : option Buffer) : Buffer :=
  match o with
  | Some b => b
  | None => []
  end.

Definition initiator0 : NoiseState := new Ref.initiator_ls Ref.initiator_es.
Definition responder0 : NoiseState := new Ref.responder_ls Ref.responder_es.

Definition act1 : outcome Buffer :=
  Eval vm_compute in initiatorAct1 (lpk responder0) initiator0.
Definition msg1 : Buffer := Eval vm_compute in message_of act1.

Definition recv1 : outcome unit :=
  Eval vm_compute in receiveAct1 msg1 responder0.

Definition act2 : outcome Buffer :=
  Eval vm_compute in recieveAct2 (final recv1).
Definition msg2 : Buffer := Eval vm_compute in message_of act2.

Definition recv2 : outcome unit :=
  Eval vm_compute in initiatorAct2 msg2 (final act1).

Definition act3 : outcome Buffer :=
  Eval vm_compute in initiatorAct3 (final recv2).
Definition msg3 : Buffer := Eval vm_compute in message_of act3.

Definition recv3 : outcome unit :=
  Eval vm_compute in receiveAct3 msg3 (final act2).

(** The two objects after the handshake. *)
Definition initiator3 : NoiseState := Eval vm_compute in final act3.
Definition responder3 : NoiseState := Eval vm_compute in final recv3.

(** The ciphers the initiator holds after the handshake. *)
Definition send0 : cipher :=
  Eval vm_compute in
    Cipher (buffer_of (sk initiator3)) (buffer_of (ck initiator3)) 0.
Definition recv0 : cipher :=
  Eval vm_compute in
    Cipher (buffer_of (rk initiator3)) (buffer_of (ck initiator3)) 0.

(** The responder's static public key in the BOLT #8 test vectors. *)
Definition responder_pub : Buffer :=
  Buf.from_hex "028d7500dd4c12685d1f568b4c2b5048e8534b873319f3a8daa612b469132ec7f7".

(** The transport fields of the initiator of the BOLT #8 test vectors after
    its act 3: the chaining key, and the two keys that are the halves of
    [hkdf(ck, empty)]. *)
Definition bolt8_initiator : NoiseState :=
  set_rn (Some (Buf.alloc 12))
    (set_sn (Some (Buf.alloc 12))
       (set_rk (Some (Buf.from_hex
                        "bb9020b8965f4df047e07f955f3c4b88418984aadc5cdb35096b9ea8fa5c3442"))
          (set_sk (Some (Buf.from_hex
                           "969ab31b4d288cedf6218839b27a3e2140827047f2c0f01bf5c04435d43511a9"))
             (set_ck (Some (Buf.from_hex
                              "919219dbb2920afa8db80f9a51787a840bcf111ed8d588caf9ab4be716e42b01"))
                initiator0)))).

(** The payload of the first transport message of the test vectors. *)
Definition hello : Buffer := Buf.from "hello".

(** A 50-byte message with version byte 1. *)
Definition bad_version : Buffer := x01 :: Buf.alloc 49.

End Vectors.
(* ================================================================= *)
(** ** Vocabulary of the further properties *)

Section FurtherVocabulary.

Context {crypto : Crypto}.

(** [s'] has the key material of [s]: the fields the constructor set. *)
Definition same_keys (s s' : NoiseState) : Prop :=
  ls s' = ls s /\ lpk s' = lpk s /\ es s' = es s /\ epk s' = epk s.

(** [s'] has the transport fields of [s]. *)
Definition same_transport (s s' : NoiseState) : Prop :=
  sk s' = sk s /\ rk s' = rk s /\ sn s' = sn s /\ rn s' = rn s.

(** A method body relates the object it starts on to the object it leaves,
    however it completes. *)
Definition respects (R : NoiseState -> NoiseState -> Prop) {A} (m : M A) : Prop :=
  forall s, R s (final (m s)).

(** The object with another static key pair. *)
Definition with_static (l p : Buffer) (s : NoiseState) : NoiseState :=
  {| ls := l; lpk := p; es := es s; epk := epk s;
     rpk := rpk s; repk := repk s; h := h s; ck := ck s; rk := rk s; sk := sk s;
     sn := sn s; rn := rn s; tempK1 := tempK1 s; tempK2 := tempK2 s;
     tempK3 := tempK3 s |}.

(** The object as its constructor left it: the key material only. *)
Definition fresh (s : NoiseState) : NoiseState :=
  {| ls := ls s; lpk := lpk s; es := es s; epk := epk s;
     rpk := None; repk := None; h := None; ck := None; rk := None; sk := None;
     sn := None; rn := None; tempK1 := None; tempK2 := None; tempK3 := None |}.

(** An outcome with its object changed by [f]. *)
Definition on_final {A} (f : NoiseState -> NoiseState) (o : outcome A) : outcome A :=
  Outcome (result o) (f (final o)) (calls o).

(** Two objects whose transport fields fit together: what one holds for
    sending, the other holds for receiving, chaining key included. *)
Definition linked (a b : NoiseState) : Prop :=
  exists c d, sending a c /\ receiving b c /\ sending b d /\ receiving a d.

(** A writer: [encryptMessage] on each message in turn, the frames put on
    the stream one after the other; it stops at the first call that
    throws. *)
Fixpoint write_all (ms : list Buffer) (s : NoiseState) : option (Buffer * NoiseState) :=
  match ms with
  | [] => Some ([], s)
  | m :: ms' =>
      match encryptMessage m s with
      | Outcome (Return frame) s1 _ =>
          match write_all ms' s1 with
          | Some (rest, s2) => Some (frame ++ rest, s2)
          | None => None
          end
      | Outcome (Throw _) _ _ => None
      end
  end.

(** A reader, calling the two read methods in the alternation the class
    asks for: [decryptLength] on the next 18 bytes of the stream, then
    [decryptMessage] on as many bytes as the length says plus the 16 of
    the tag.  It stops when the stream has no complete frame left or a
    call throws, and gives the messages read and the object as left. *)
Fixpoint read_all (fuel : nat) (stream : Buffer) (s : NoiseState)
  : list Buffer * NoiseState :=
  match fuel with
  | 0 => ([], s)
  | S fuel' =>
      if length stream <? 18 then ([], s) else
      match decryptLength (firstn 18 stream) s with
      | Outcome (Return n) s1 _ =>
          let rest := skipn 18 stream in
          let size := N.to_nat n + 16 in
          if length rest <? size then ([], s1) else
          match decryptMessage (firstn size rest) s1 with
          | Outcome (Return m) s2 _ =>
              let (ms, s3) := read_all fuel' (skipn size rest) s2 in
              (m :: ms, s3)
          | Outcome (Throw _) s2 _ => ([], s2)
          end
      | Outcome (Throw _) s1 _ => ([], s1)
      end
  end.

(** The handshake between two fresh objects, each act called once and in
    order, each side given the message the other side returned, the
    initiator knowing the responder's static public key.  It gives both
    objects after act 3 and the three messages, or nothing as soon as an
    act throws. *)
Definition handshake (ls_i es_i ls_r es_r : Buffer)
  : option (NoiseState * NoiseState * list Buffer) :=
  match initiatorAct1 (getPublicKey ls_r) (new ls_i es_i) with
  | Outcome (Return m1) i1 _ =>
  match receiveAct1 m1 (new ls_r es_r) with
  | Outcome (Return _) r1 _ =>
  match recieveAct2 r1 with
  | Outcome (Return m2) r2 _ =>
  match initiatorAct2 m2 i1 with
  | Outcome (Return _) i2 _ =>
  match initiatorAct3 i2 with
  | Outcome (Return m3) i3 _ =>
  match receiveAct3 m3 r2 with
  | Outcome (Return _) r3 _ => Some (i3, r3, [m1; m2; m3])
  | Outcome (Throw _) _ _ => None
  end
  | Outcome (Throw _) _ _ => None
  end
  | Outcome (Throw _) _ _ => None
  end
  | Outcome (Throw _) _ _ => None
  end
  | Outcome (Throw _) _ _ => None
  end
  | Outcome (Throw _) _ _ => None
  end.

(** What both sides hold when the handshake is over. *)
Definition agreed (ls_i es_i ls_r es_r : Buffer) (i3 r3 : NoiseState) : Prop :=
  rpk i3 = Some (getPublicKey ls_r) /\ repk i3 = Some (getPublicKey es_r) /\
  rpk r3 = Some (getPublicKey ls_i) /\ repk r3 = Some (getPublicKey es_i) /\
  h i3 = h r3 /\ h i3 <> None /\
  tempK1 i3 = tempK1 r3 /\ tempK2 i3 = tempK2 r3 /\ tempK3 i3 = tempK3 r3.

End FurtherVocabulary.

(* ================================================================= *)
(** ** The class [TxFactory]: commitment transactions *)

From Stdlib Require Import ZArith.

Module TxFactory.

Local Open Scope Z_scope.

(** What [TxFactory] takes from other modules.  [Value] is an amount that
    the code reads in satoshis ([.sats], a bigint) and makes with
    [Value.fromSats] and [Value.zero]; [Script], [ScriptFactory] and
    [CommitmentNumber] are used through the functions below; an
    [OutPoint] is only passed on. *)
Class Bitcoin := {
  Value : Type;
  sats : Value -> Z;
  fromSats : Z -> Value;
  zero : Value;
  Script : Type;
  OutPoint : Type;
  p2wshLock : Script -> Script;
  p2wpkhLock : Buffer -> Script;
  fundingScript : Buffer -> Buffer -> Script;
  offeredHtlcScript : Buffer -> Buffer -> option Buffer -> option Buffer -> Script;
  receivedHtlcScript : Buffer -> Z -> Buffer -> option Buffer -> option Buffer -> Script;
  toLocalScript : Buffer -> Buffer -> Z -> Script;
  obscure : Z -> Buffer -> Buffer -> Z;
  getSequence : Z -> Z;
  getLockTime : Z -> Z
}.

(** The two members of [HtlcDirection] that the code names. *)
Inductive HtlcDirection := Offered | Accepted.

Definition direction_eqb (a b : HtlcDirection) : bool :=
  match a, b with
  | Offered, Offered => true
  | Accepted, Accepted => true
  | _, _ => false
  end.

Section Commitment.

Context {bitcoin : Bitcoin}.

(** The fields of an [Htlc] that [createCommitment] reads. *)
Record Htlc := {
  value : Value;
  direction : HtlcDirection;
  paymentHash : Buffer;
  cltvExpiry : Z
}.

Record TxOut := { out_value : Value; out_script : Script }.

(** A [TxBuilder] as [createCommitment] fills it: the two fields it
    assigns and the inputs and outputs in the order it adds them. *)
Record TxBuilder := {
  version : Z;
  locktime : Z;
  inputs : list (OutPoint * Z);
  outputs : list TxOut
}.

Definition addOutput (v : Value) (s : Script) (tx : TxBuilder) : TxBuilder :=
  {| version := version tx; locktime := locktime tx; inputs := inputs tx;
     outputs := outputs tx ++ [{| out_value := v; out_script := s |}] |}.

(** [createFundingOutput(value, openPubKey, acceptPubKey)] *)
Definition createFundingOutput (v : Value) (openPubKey acceptPubKey : Buffer) : TxOut :=
  let script := p2wshLock (fundingScript openPubKey acceptPubKey) in
  {| out_value := v; out_script := script |}.

(** Step 3 of [createCommitment]: the fee weight of an HTLC, 663 for
    HTLC-Timeout and 703 for HTLC-Success, and the test that keeps it. *)
Definition feeWeight (reverseHtlcs : bool) (htlc : Htlc) : Z :=
  if reverseHtlcs
  then (if direction_eqb (direction htlc) Offered then 703 else 663)
  else (if direction_eqb (direction htlc) Offered then 663 else 703).

Definition unpruned (reverseHtlcs : bool) (feePerKw : Z) (dustLimitSatoshi : Value)
    (htlc : Htlc) : bool :=
  let valueInSats := sats (value htlc) in
  let feeInSats := Z.quot (feeWeight reverseHtlcs htlc * feePerKw) 1000 in
  let satsLessFee := valueInSats - feeInSats in
  sats dustLimitSatoshi <=? satsLessFee.

(** Step 5: the value of the funding node less the base fee. *)
Definition less_fee (v : Value) (baseFee : Z) : Value :=
  let newValue := sats v - baseFee in
  if 0 <? newValue then fromSats newValue else zero.

(** Steps 6 and 7: the output of one HTLC. *)
Definition witnessScript (reverseHtlcs : bool)
    (revocationPubKey : Buffer) (localHtlcPubKey remoteHtlcPubKey : option Buffer)
    (htlc : Htlc) : Script :=
  if (negb reverseHtlcs && direction_eqb (direction htlc) Offered) ||
     (reverseHtlcs && direction_eqb (direction htlc) Accepted)
  then offeredHtlcScript (paymentHash htlc) revocationPubKey
         localHtlcPubKey remoteHtlcPubKey
  else receivedHtlcScript (paymentHash htlc) (cltvExpiry htlc) revocationPubKey
         localHtlcPubKey remoteHtlcPubKey.

(** [createCommitment(...)], the arguments in source order. *)
Definition createCommitment
    (isFunderLocal : bool) (commitmentNumber : Z)
    (openPaymentBasePoint acceptPaymentBasePoint : Buffer)
    (fundingOutPoint : OutPoint) (dustLimitSatoshi : Value) (feePerKw : Z)
    (localDelay : Z) (localValue remoteValue : Value)
    (revocationPubKey delayedPubKey remotePubKey : Buffer)
    (reverseHtlcs : bool) (localHtlcPubKey remoteHtlcPubKey : option Buffer)
    (htlcs : list Htlc) : TxBuilder :=
  let obscuredCommitmentNumber :=
    obscure commitmentNumber openPaymentBasePoint acceptPaymentBasePoint in
  (* 1. add the input as the funding outpoint and set the nSequence *)
  (* 2. set the locktime to the obscured commitment number *)
  let tx := {| version := 2;
               locktime := getLockTime obscuredCommitmentNumber;
               inputs := [(fundingOutPoint, getSequence obscuredCommitmentNumber)];
               outputs := [] |} in
  (* 3. find unpruned outputs *)
  let unprunedHtlcs := filter (unpruned reverseHtlcs feePerKw dustLimitSatoshi) htlcs in
  (* 4. calculate base fee *)
  let weight := 724 + Z.of_nat (length unprunedHtlcs) * 172 in
  let baseFee := Z.quot (weight * feePerKw) 1000 in
  (* 5. subtract base fee from funding node *)
  let localValue' := if isFunderLocal then less_fee localValue baseFee else localValue in
  let remoteValue' := if isFunderLocal then remoteValue else less_fee remoteValue baseFee in
  (* 6/7. add unpruned offered/received HTLCs *)
  let tx := fold_left
              (fun tx htlc =>
                 addOutput (value htlc)
                   (p2wshLock (witnessScript reverseHtlcs revocationPubKey
                                 localHtlcPubKey remoteHtlcPubKey htlc)) tx)
              unprunedHtlcs tx in
  (* 8. add local if unpruned *)
  let tx := if sats dustLimitSatoshi <=? sats localValue'
            then addOutput localValue'
                   (p2wshLock (toLocalScript revocationPubKey delayedPubKey localDelay)) tx
            else tx in
  (* 9. add remote if unpruned *)
  if sats dustLimitSatoshi <=? sats remoteValue'
  then addOutput remoteValue' (p2wpkhLock remotePubKey) tx
  else tx.

End Commitment.

End TxFactory.

Section CommitmentVocabulary.

Import TxFactory.
Local Open Scope Z_scope.

Context {bitcoin : Bitcoin}.

(** The output that [createCommitment] adds for an HTLC it kept. *)
Definition htlc_output (reverseHtlcs : bool) (revocationPubKey : Buffer)
    (localHtlcPubKey remoteHtlcPubKey : option Buffer) (htlc : Htlc) : TxOut :=
  {| out_value := value htlc;
     out_script := p2wshLock (witnessScript reverseHtlcs revocationPubKey
                                localHtlcPubKey remoteHtlcPubKey htlc) |}.

(** The HTLC offered the other way round. *)
Definition flipped (htlc : Htlc) : Htlc :=
  {| value := value htlc;
     direction := match direction htlc with Offered => Accepted | Accepted => Offered end;
     paymentHash := paymentHash htlc;
     cltvExpiry := cltvExpiry htlc |}.

(** The satoshis of a list of outputs, of a list of HTLCs. *)
Definition total_out (os : list TxOut) : Z :=
  fold_right (fun o acc => sats (out_value o) + acc) 0 os.

Definition total_htlcs (hs : list Htlc) : Z :=
  fold_right (fun x acc => sats (value x) + acc) 0 hs.

End CommitmentVocabulary.

(* ================================================================= *)
(** ** The class [BitcoinError] *)

Module BitcoinError.

(** The members of [BitcoinErrorCode] that [getMessage] names; the enum is
    declared in another module, and [Unlisted] stands for any other value
    of it. *)
Inductive BitcoinErrorCode :=
| InvalidPrivateKey
| Base58ChecksumFailed
| PubKeyInvalid
| PubKeyHashInvalid
| SigEncodingInvalid
| SigHashTypeInvalid
| MultiSigSetupInvalid
| Hash160Invalid
| Hash256Invalid
| NetworkMismatch
| UnkownHdKeyVersion
| InvalidHdEncoding
| InvalidHdPath
| InvalidHdDerivation
| InvalidHdPrivateKey
| InvalidHdPublicKey
| Unlisted.

(** [getMessage(code)] *)
Definition getMessage (code : BitcoinErrorCode) : string :=
  match code with
  | InvalidPrivateKey => "Invalid private key"
  | Base58ChecksumFailed => "Base58Check checksum failed"
  | PubKeyInvalid => "Invalid public key"
  | PubKeyHashInvalid => "Invalid pubkeyhash"
  | SigEncodingInvalid => "Signatures requires BIP66 DER encoding"
  | SigHashTypeInvalid => "Invalid Signature SIGHASH type"
  | MultiSigSetupInvalid => "MultiSig structure is invalid"
  | Hash160Invalid => "Hash160 requires 20-byte Buffer"
  | Hash256Invalid => "Hash256 requires 32-byte Buffer"
  | NetworkMismatch => "Network mismatch"
  | UnkownHdKeyVersion => "Unkown HD key version"
  | InvalidHdEncoding => "Invalid HD encoding"
  | InvalidHdPath => "Invalid HD key path"
  | InvalidHdDerivation => "Invalid HD key derivation"
  | InvalidHdPrivateKey => "Invalid HD private key"
  | InvalidHdPublicKey => "Invalid HD public key"
  | Unlisted => "Unknown"
  end.

Section Class.

(** The type of the optional [info], which the class only stores. *)
Variable Info : Type.

(** The object: [message] and [name] from [Error], and the two fields of
    the constructor's parameters. *)
Record BitcoinError := {
  message : string;
  name : string;
  code : BitcoinErrorCode;
  info : option Info
}.

(** [new BitcoinError(code, info)] *)
Definition new (code : BitcoinErrorCode) (info : option Info) : BitcoinError :=
  {| message := getMessage code; name := "BitcoinError"; code := code; info := info |}.

End Class.

End BitcoinError.

(* ================================================================= *)
(** ** Facts about buffers *)

Module BufFacts.

Local Open Scope N_scope.

Lemma to_N_byte_of_N n : Byte.to_N (Buf.byte_of_N n) = n mod 256.
Proof.
  unfold Buf.byte_of_N.
  change 255 with (N.ones 8). rewrite N.land_ones. change (2 ^ 8) with 256.
  destruct (Byte.of_N (n mod 256)) as [b|] eqn:E.
  - now apply Byte.to_of_N.
  - exfalso.
    pose proof (Byte.to_of_N_option_map (n mod 256)) as T.
    rewrite E in T. simpl in T.
    assert (n mod 256 < 256) by (apply N.mod_lt; discriminate).
    destruct (N.leb_spec (n mod 256) 255); [discriminate | lia].
Qed.

Lemma u16_split v : v < 65536 -> v mod 256 + 256 * ((v / 256) mod 256) = v.
Proof.
  intros Hv.
  assert (v / 256 < 256) by (apply N.Div0.div_lt_upper_bound; lia).
  rewrite (N.mod_small (v / 256)) by assumption.
  pose proof (N.div_mod v 256). lia.
Qed.

Lemma u16_split_be v : v < 65536 -> 256 * ((v / 256) mod 256) + v mod 256 = v.
Proof. intros Hv. rewrite N.add_comm. now apply u16_split. Qed.

(** Reading back the counter of a transport nonce. *)
Lemma read_counter v :
  v < 65536 -> Buf.readUInt16LE (counter_nonce v) 4 = Some v.
Proof.
  intros Hv. unfold Buf.readUInt16LE, counter_nonce. cbn [Buf.alloc repeat app nth_error].
  now rewrite !to_N_byte_of_N, u16_split.
Qed.

(** Writing a counter into a transport nonce. *)
Lemma write_counter u v :
  v <= 65535 -> Buf.writeUInt16LE (counter_nonce u) v 4 = Some (counter_nonce v).
Proof.
  intros Hv. unfold Buf.writeUInt16LE.
  apply N.leb_le in Hv. rewrite Hv. reflexivity.
Qed.

(** The length prefix is what [writeUInt16BE] produces and what
    [readUInt16BE] reads back. *)
Lemma write_length_prefix m :
  Buf.len m <= 65535 ->
  Buf.writeUInt16BE (Buf.alloc 2) (Buf.len m) 0 = Some (length_prefix m).
Proof.
  intros Hm. unfold Buf.writeUInt16BE.
  apply N.leb_le in Hm. rewrite Hm. reflexivity.
Qed.

Lemma write_length_overflow m :
  65535 < Buf.len m ->
  Buf.writeUInt16BE (Buf.alloc 2) (Buf.len m) 0 = None.
Proof.
  intros Hm. unfold Buf.writeUInt16BE.
  apply N.leb_gt in Hm. rewrite Hm. reflexivity.
Qed.

Lemma read_length_prefix m :
  Buf.len m <= 65535 ->
  Buf.readUInt16BE (length_prefix m) 0 = Some (Buf.len m).
Proof.
  intros Hm. unfold Buf.readUInt16BE, length_prefix. cbn [nth_error].
  rewrite !to_N_byte_of_N, u16_split_be; [reflexivity | lia].
Qed.

(** Slices of a concatenation. *)
Lemma firstn_exact {A} (a b : list A) n : length a = n -> firstn n (a ++ b) = a.
Proof.
  intros <-. rewrite firstn_app, Nat.sub_diag, firstn_all. simpl. apply app_nil_r.
Qed.

Lemma skipn_exact {A} (a b : list A) n : length a = n -> skipn n (a ++ b) = b.
Proof.
  intros <-. rewrite skipn_app, Nat.sub_diag, skipn_all. reflexivity.
Qed.

Lemma first_byte (m : Buffer) : nth_error (Buf.slice 0 1 m) 0 = nth_error m 0.
Proof. destruct m; reflexivity. Qed.

Lemma is_zero_spec v : Buf.is_zero v = true <-> v = Some x00.
Proof.
  destruct v as [b|]; simpl; split; try discriminate.
  - intros E. apply Byte.byte_dec_bl in E. congruence.
  - intros E. injection E as ->. reflexivity.
Qed.

Lemma is_zero_false v : Buf.is_zero v = false <-> v <> Some x00.
Proof.
  rewrite <- is_zero_spec. destruct (Buf.is_zero v); split; congruence.
Qed.

(** A handshake message [0 || a || b] read back by the receiver's slices. *)
Lemma parse_message (a b : Buffer) n :
  length a = n ->
  Buf.slice 1 (S n) (Buf.alloc 1 ++ a ++ b) = a /\
  Buf.slice_from (S n) (Buf.alloc 1 ++ a ++ b) = b /\
  nth_error (Buf.slice 0 1 (Buf.alloc 1 ++ a ++ b)) 0 = Some x00.
Proof.
  intros Ha. unfold Buf.slice, Buf.slice_from. cbn [Buf.alloc repeat app skipn].
  rewrite Nat.sub_succ, Nat.sub_0_r.
  now rewrite firstn_exact, skipn_exact.
Qed.

End BufFacts.

(* ================================================================= *)
(** ** Running a method body *)

(** Unfold the sequencing of a method body on a given object. *)
Ltac exec :=
  cbv [bind use own assign ranged throw_if when ret throw
       do_ecdh do_ccpEncrypt do_ccpDecrypt
       result final calls
       ls lpk es epk rpk repk h ck rk sk sn rn tempK1 tempK2 tempK3
       set_rpk set_repk set_h set_ck set_rk set_sk set_sn set_rn
       set_tempK1 set_tempK2 set_tempK3 seeded_hash];
  cbn [app negb].

(** Split on an undecided test of the body: an [undefined] field, the
    result of a primitive, a boolean condition. *)
Ltac split_match :=
  match goal with
  | |- context [match ?x with _ => _ end] =>
      lazymatch x with
      | context [match _ with _ => _ end] => fail
      | _ =>
          lazymatch type of x with
          | option _ => first [ is_var x; destruct x | destruct x eqn:? ]
          | bool => first [ is_var x; destruct x | destruct x eqn:? ]
          end
      end
  end.

Ltac run := exec; repeat (split_match; exec).

(* ================================================================= *)
(** ** Initialization, validation errors and the handshake nonces *)

Section Handshake.

Context {crypto : Crypto}.

(** C2 (as the code has it).  [_initialize(seed_pub)] always returns and
    leaves [h = sha256(sha256(sha256(protocolName) || prologue) || seed_pub)]
    and [ck = sha256(protocolName)]: [ck] is the first hash, the value [h]
    had before the prologue and the key were mixed in, not the final [h].
    The responder seeds with [lpk] (seen on a call of [receiveAct1] that
    stops at the length check), the initiator with the [rpk] it is given
    (seen in the [h] and [ck] that [initiatorAct1] leaves). *)
Theorem initialize_h_and_ck (seed_pub rpk_arg : Buffer) (s : NoiseState) :
  _initialize seed_pub s =
    Outcome (Return tt)
            (set_h (Some (seeded_hash seed_pub)) (set_ck (Some (sha256 protocolName)) s))
            [] /\
  final (receiveAct1 [] s) = final (_initialize (lpk s) s) /\
  match ecdh rpk_arg (es s) with
  | None =>
      h (final (initiatorAct1 rpk_arg s)) = Some (sha256 (seeded_hash rpk_arg ++ epk s)) /\
      ck (final (initiatorAct1 rpk_arg s)) = Some (sha256 protocolName)
  | Some ss =>
      let h1 := sha256 (seeded_hash rpk_arg ++ epk s) in
      let okm := hkdf (sha256 protocolName) ss in
      h (final (initiatorAct1 rpk_arg s)) =
        Some (sha256 (h1 ++ ccpEncrypt (skipn 32 okm) (Buf.alloc 12) h1 [])) /\
      ck (final (initiatorAct1 rpk_arg s)) = Some (firstn 32 okm)
  end.
Proof.
  destruct s. unfold receiveAct1, initiatorAct1, _initialize.
  repeat split; run; auto.
Qed.

(** C8.  [receiveAct1] and [initiatorAct2] throw [ACT1_READ_FAILED] /
    [ACT2_READ_FAILED] exactly when the message is not 50 bytes long and
    [receiveAct3] throws [ACT3_READ_FAILED] exactly when it is not 66 bytes
    long; each throws its [BAD_VERSION] error exactly when the length is
    right and the first byte is not 0. *)
Theorem read_and_version_errors (m : Buffer) (s : NoiseState) :
  (result (receiveAct1 m s) = Throw (Error "ACT1_READ_FAILED") <-> length m <> 50) /\
  (result (initiatorAct2 m s) = Throw (Error "ACT2_READ_FAILED") <-> length m <> 50) /\
  (result (receiveAct3 m s) = Throw (Error "ACT3_READ_FAILED") <-> length m <> 66) /\
  (result (receiveAct1 m s) = Throw (Error "ACT1_BAD_VERSION") <->
     length m = 50 /\ nth_error m 0 <> Some x00) /\
  (result (initiatorAct2 m s) = Throw (Error "ACT2_BAD_VERSION") <->
     length m = 50 /\ nth_error m 0 <> Some x00) /\
  (result (receiveAct3 m s) = Throw (Error "ACT3_BAD_VERSION") <->
     length m = 66 /\ nth_error m 0 <> Some x00).
Proof.
  destruct s. unfold receiveAct1, initiatorAct2, receiveAct3, _initialize.
  rewrite BufFacts.first_byte.
  destruct (Nat.eqb_spec (length m) 50) as [E50|E50];
    destruct (Nat.eqb_spec (length m) 66) as [E66|E66];
    (destruct (Buf.is_zero (nth_error m 0)) eqn:V;
     [ apply (proj1 (BufFacts.is_zero_spec _)) in V
     | apply (proj1 (BufFacts.is_zero_false _)) in V ]);
    try lia;
    run; repeat split; intros;
    repeat match goal with
           | H : _ /\ _ |- _ => destruct H
           end;
    congruence.
Qed.

End Handshake.

Section HandshakeChecks.

Context {crypto : Crypto}.

(** C10.  A failed version check is not atomic.  On a 50-byte message whose
    first byte is not 0, [receiveAct1] throws [ACT1_BAD_VERSION] with [h]
    and [ck] already reinitialized and [repk] already set to bytes 1..33
    of the message; [initiatorAct2] throws [ACT2_BAD_VERSION] with [repk]
    already set to bytes 1..33 of the message.  Neither makes an AEAD
    call. *)
Theorem bad_version_keeps_writes (m : Buffer) (s : NoiseState) :
  length m = 50 ->
  nth_error m 0 <> Some x00 ->
  receiveAct1 m s =
    Outcome (Throw (Error "ACT1_BAD_VERSION"))
            (set_repk (Some (Buf.slice 1 34 m))
               (set_h (Some (seeded_hash (lpk s)))
                  (set_ck (Some (sha256 protocolName)) s)))
            [] /\
  initiatorAct2 m s =
    Outcome (Throw (Error "ACT2_BAD_VERSION"))
            (set_repk (Some (Buf.slice 1 34 m)) s)
            [].
Proof.
  intros Hlen Hv. apply BufFacts.is_zero_false in Hv.
  destruct s. unfold receiveAct1, initiatorAct2, _initialize.
  rewrite BufFacts.first_byte, Hlen, Hv.
  split; exec; reflexivity.
Qed.


(** C6.  Every AEAD call of the acts 1 and 2, on either side, uses the
    nonce of twelve zero bytes.  In [initiatorAct3] the first call,
    which encrypts [lpk], uses [00 00 00 00 01 00 00 00 00 00 00 00] and
    the call after it uses twelve zero bytes; in [receiveAct3] the first
    call, which decrypts bytes 1..49 of the message, uses the same
    literal and the call after it uses twelve zero bytes.  An act 1 or 2
    that returns has made one call, an act 3 that returns has made
    two. *)
Theorem handshake_nonces (m rpk_arg : Buffer) (s : NoiseState) :
  Forall zero_nonce (calls (initiatorAct1 rpk_arg s)) /\
  Forall zero_nonce (calls (receiveAct1 m s)) /\
  Forall zero_nonce (calls (recieveAct2 s)) /\
  Forall zero_nonce (calls (initiatorAct2 m s)) /\
  match calls (initiatorAct3 s) with
  | [] => True
  | c :: rest =>
      (exists k ad, c = Encrypt k nonce1 ad (lpk s)) /\ Forall zero_nonce rest
  end /\
  match calls (receiveAct3 m s) with
  | [] => True
  | c :: rest =>
      (exists k ad, c = Decrypt k nonce1 ad (Buf.slice 1 50 m)) /\ Forall zero_nonce rest
  end /\
  Buf.from_hex "000000000100000000000000" = nonce1 /\
  nonce1 <> Buf.alloc 12 /\
  match result (initiatorAct1 rpk_arg s) with
  | Return _ => length (calls (initiatorAct1 rpk_arg s)) = 1
  | Throw _ => True
  end /\
  match result (receiveAct1 m s) with
  | Return _ => length (calls (receiveAct1 m s)) = 1
  | Throw _ => True
  end /\
  match result (recieveAct2 s) with
  | Return _ => length (calls (recieveAct2 s)) = 1
  | Throw _ => True
  end /\
  match result (initiatorAct2 m s) with
  | Return _ => length (calls (initiatorAct2 m s)) = 1
  | Throw _ => True
  end /\
  match result (initiatorAct3 s) with
  | Return _ => length (calls (initiatorAct3 s)) = 2
  | Throw _ => True
  end /\
  match result (receiveAct3 m s) with
  | Return _ => length (calls (receiveAct3 m s)) = 2
  | Throw _ => True
  end.
Proof.
  destruct s.
  unfold initiatorAct1, initiatorAct2, initiatorAct3,
         receiveAct1, recieveAct2, receiveAct3, _initialize, zero_nonce.
  repeat split; try discriminate; try reflexivity.
  all: run; repeat constructor; eauto.
Qed.

End HandshakeChecks.

(* ================================================================= *)
(** ** The transport cipher *)

Section Transport.

Context {crypto : Crypto}.

Lemma bind_pure {A B} (m : M A) (k : A -> M B) s a s1 :
  m s = Outcome (Return a) s1 [] -> bind m k s = k a s1.
Proof. intros E. unfold bind. rewrite E. destruct (k a s1); reflexivity. Qed.

Lemma bind_throw {A B} (m : M A) (k : A -> M B) s e s1 cs :
  m s = Outcome (Throw e) s1 cs -> bind m k s = Outcome (Throw e) s1 cs.
Proof. intros E. unfold bind. rewrite E. reflexivity. Qed.

Lemma advance_count c :
  (count c < 1000)%N -> (count (advance c) < 1000)%N.
Proof.
  intros Hc. unfold advance.
  destruct (N.leb_spec 1000 (count c + 1)); cbn [count]; lia.
Qed.

Lemma sending_with c s : (count c < 1000)%N -> sending (with_sending c s) c.
Proof. intros Hc. destruct s. repeat split; assumption. Qed.

Lemma receiving_with c s : (count c < 1000)%N -> receiving (with_receiving c s) c.
Proof. intros Hc. destruct s. repeat split; assumption. Qed.

(** The statement [if (this._incrementSendingNonce() >= 1000)
    this._rotateSendingKeys()], wherever it occurs in a body. *)
Lemma sending_step {A} (k : M A) s c :
  sending s c ->
  bind _incrementSendingNonce
       (fun v => bind (when (1000 <=? v)%N _rotateSendingKeys) (fun _ => k)) s =
  k (with_sending (advance c) s).
Proof.
  intros (Hk & Hc & Hn & Hlt). destruct s, c as [ky ch n].
  cbn [sk ck sn rk rn key chain count] in Hk, Hc, Hn, Hlt. subst.
  unfold _incrementSendingNonce, _rotateSendingKeys, advance, with_sending.
  cbn [count key chain].
  exec. rewrite BufFacts.read_counter by lia. exec.
  rewrite BufFacts.write_counter by lia. exec.
  destruct (N.leb_spec 1000 (n + 1)); exec; destruct (k _); reflexivity.
Qed.

Lemma receiving_step {A} (k : M A) s c :
  receiving s c ->
  bind _incrementRecievingNonce
       (fun v => bind (when (1000 <=? v)%N _rotateRecievingKeys) (fun _ => k)) s =
  k (with_receiving (advance c) s).
Proof.
  intros (Hk & Hc & Hn & Hlt). destruct s, c as [ky ch n].
  cbn [sk ck sn rk rn key chain count] in Hk, Hc, Hn, Hlt. subst.
  unfold _incrementRecievingNonce, _rotateRecievingKeys, advance, with_receiving.
  cbn [count key chain].
  exec. rewrite BufFacts.read_counter by lia. exec.
  rewrite BufFacts.write_counter by lia. exec.
  destruct (N.leb_spec 1000 (n + 1)); exec; destruct (k _); reflexivity.
Qed.


Lemma step_use {A} f (k : Buffer -> M A) s b :
  f s = Some b -> bind (use f) k s = k b s.
Proof. intros E. apply bind_pure. unfold use. now rewrite E. Qed.

Lemma step_ranged {A B} (r : option A) (k : A -> M B) s a :
  r = Some a -> bind (ranged r) k s = k a s.
Proof. intros ->. now apply bind_pure. Qed.

Lemma step_encrypt {A} ky n ad pt (k : Buffer -> M A) s :
  bind (do_ccpEncrypt ky n ad pt) k s =
  after_call (Encrypt ky n ad pt) (k (ccpEncrypt ky n ad pt) s).
Proof. unfold bind, do_ccpEncrypt, after_call. destruct (k _ s); reflexivity. Qed.

Lemma step_decrypt {A} ky n ad ct (k : Buffer -> M A) s :
  bind (do_ccpDecrypt ky n ad ct) k s =
  match ccpDecrypt ky n ad ct with
  | Some pt => after_call (Decrypt ky n ad ct) (k pt s)
  | None => Outcome (Throw CryptoError) s [Decrypt ky n ad ct]
  end.
Proof.
  unfold bind, do_ccpDecrypt, after_call.
  destruct (ccpDecrypt ky n ad ct); [destruct (k _ s)|]; reflexivity.
Qed.

Lemma with_sending_twice c1 c2 s :
  with_sending c2 (with_sending c1 s) = with_sending c2 s.
Proof. destruct s; reflexivity. Qed.

(** [encryptMessage] on an object holding sending cipher [c]. *)
Lemma encryptMessage_spec m s c :
  sending s c ->
  encryptMessage m s =
  if (Buf.len m <=? 65535)%N
  then Outcome
         (Return (ccpEncrypt (key c) (counter_nonce (count c)) [] (length_prefix m) ++
                  ccpEncrypt (key (advance c)) (counter_nonce (count (advance c))) [] m))
         (with_sending (advance (advance c)) s)
         [Encrypt (key c) (counter_nonce (count c)) [] (length_prefix m);
          Encrypt (key (advance c)) (counter_nonce (count (advance c))) [] m]
  else Outcome (Throw RangeError) s [].
Proof.
  intros Hs. pose proof Hs as (Hk & Hc & Hn & Hlt).
  unfold encryptMessage.
  destruct (N.leb_spec (Buf.len m) 65535) as [Hm|Hm].
  - rewrite (step_ranged _ _ _ _ (BufFacts.write_length_prefix m Hm)).
    rewrite (step_use _ _ _ _ Hk), (step_use _ _ _ _ Hn), step_encrypt.
    rewrite (sending_step _ _ _ Hs).
    pose proof (sending_with _ s (advance_count _ Hlt)) as Hs1.
    pose proof Hs1 as (Hk1 & Hc1 & Hn1 & Hlt1).
    rewrite (step_use _ _ _ _ Hk1), (step_use _ _ _ _ Hn1), step_encrypt.
    rewrite (sending_step _ _ _ Hs1), with_sending_twice.
    reflexivity.
  - apply bind_throw.
    now rewrite (BufFacts.write_length_overflow m Hm).
Qed.

(** [decryptMessage] and [decryptLength] on an object holding receiving
    cipher [c]. *)
Lemma decryptMessage_spec ct s c :
  receiving s c ->
  decryptMessage ct s =
  match ccpDecrypt (key c) (counter_nonce (count c)) [] ct with
  | Some pt => Outcome (Return pt) (with_receiving (advance c) s)
                       [Decrypt (key c) (counter_nonce (count c)) [] ct]
  | None => Outcome (Throw CryptoError) s
                    [Decrypt (key c) (counter_nonce (count c)) [] ct]
  end.
Proof.
  intros Hr. pose proof Hr as (Hk & Hc & Hn & Hlt).
  unfold decryptMessage.
  rewrite (step_use _ _ _ _ Hk), (step_use _ _ _ _ Hn), step_decrypt.
  destruct (ccpDecrypt _ _ _ ct); [|reflexivity].
  rewrite (receiving_step _ _ _ Hr). reflexivity.
Qed.

Lemma decryptLength_spec lc s c :
  receiving s c ->
  decryptLength lc s =
  match ccpDecrypt (key c) (counter_nonce (count c)) [] lc with
  | Some l => Outcome (match Buf.readUInt16BE l 0 with
                       | Some n => Return n
                       | None => Throw RangeError
                       end)
                      (with_receiving (advance c) s)
                      [Decrypt (key c) (counter_nonce (count c)) [] lc]
  | None => Outcome (Throw CryptoError) s
                    [Decrypt (key c) (counter_nonce (count c)) [] lc]
  end.
Proof.
  intros Hr. pose proof Hr as (Hk & Hc & Hn & Hlt).
  unfold decryptLength.
  rewrite (step_use _ _ _ _ Hk), (step_use _ _ _ _ Hn), step_decrypt.
  destruct (ccpDecrypt _ _ _ lc) as [l|]; [|reflexivity].
  rewrite (receiving_step _ _ _ Hr).
  destruct (Buf.readUInt16BE l 0); reflexivity.
Qed.

Lemma counter_nonce_inj u v :
  (u < 1000)%N -> (v < 1000)%N -> counter_nonce u = counter_nonce v -> u = v.
Proof.
  intros Hu Hv E.
  assert (R : Buf.readUInt16LE (counter_nonce u) 4 = Buf.readUInt16LE (counter_nonce v) 4)
    by now rewrite E.
  rewrite !BufFacts.read_counter in R by lia. congruence.
Qed.

Lemma advance_twice_even c :
  (count c < 1000)%N -> N.even (count c) = true ->
  N.even (count (advance (advance c))) = true.
Proof.
  intros Hc He.
  assert (count c <> 999)%N by (intros E; rewrite E in He; discriminate).
  unfold advance.
  destruct (N.leb_spec 1000 (count c + 1)); [lia|]. cbn [count key chain].
  destruct (N.leb_spec 1000 (count c + 1 + 1)); cbn [count]; [reflexivity|].
  replace (count c + 1 + 1)%N with (count c + 2)%N by lia.
  rewrite N.even_add, He. reflexivity.
Qed.

(** The ciphers of a transport object; the sending counter is even,
    since each [encryptMessage] uses the sending key twice. *)
Lemma transport_ciphers s :
  transport s ->
  exists c r, sending s c /\ receiving s r /\ N.even (count c) = true.
Proof.
  induction 1 as [s m H | s m H | s m _ IH | s lc _ IH | s ct _ IH].
  - revert H. destruct s. unfold initiatorAct3, sending, receiving.
    run; intros H; try discriminate.
    eexists (Cipher _ _ 0), (Cipher _ _ 0). cbn [key chain count].
    repeat split; reflexivity.
  - revert H. destruct s. unfold receiveAct3, sending, receiving.
    run; intros H; try discriminate.
    eexists (Cipher _ _ 0), (Cipher _ _ 0). cbn [key chain count].
    repeat split; reflexivity.
  - destruct IH as (c & r & Hs & Hr & He).
    rewrite (encryptMessage_spec m _ _ Hs).
    destruct (Buf.len m <=? 65535)%N; cbn [final]; [|eauto].
    pose proof Hs as (_ & _ & _ & Hc).
    exists (advance (advance c)), (Cipher (key r) (chain (advance (advance c))) (count r)).
    split; [apply sending_with; auto using advance_count|].
    split; [|now apply advance_twice_even].
    destruct Hr as (Hk & _ & Hn & Hlt). destruct s.
    repeat split; assumption.
  - destruct IH as (c & r & Hs & Hr & He).
    rewrite (decryptLength_spec lc _ _ Hr).
    destruct (ccpDecrypt _ _ _ lc); cbn [final]; [|eauto].
    pose proof Hr as (_ & _ & _ & Hc).
    exists (Cipher (key c) (chain (advance r)) (count c)), (advance r).
    split; [|split; [apply receiving_with; auto using advance_count | exact He]].
    destruct Hs as (Hk & _ & Hn & Hlt). destruct s.
    repeat split; assumption.
  - destruct IH as (c & r & Hs & Hr & He).
    rewrite (decryptMessage_spec ct _ _ Hr).
    destruct (ccpDecrypt _ _ _ ct); cbn [final]; [|eauto].
    pose proof Hr as (_ & _ & _ & Hc).
    exists (Cipher (key c) (chain (advance r)) (count c)), (advance r).
    split; [|split; [apply receiving_with; auto using advance_count | exact He]].
    destruct Hs as (Hk & _ & Hn & Hlt). destruct s.
    repeat split; assumption.
Qed.

End Transport.

Section TransportProperties.

Context {crypto : Crypto}.

Lemma advance_rotates c :
  (count c < 1000)%N ->
  advance c = if (count c =? 999)%N then rotated c
              else Cipher (key c) (chain c) (count c + 1).
Proof.
  intros Hc. unfold advance, rotated.
  destruct (N.leb_spec 1000 (count c + 1)), (N.eqb_spec (count c) 999);
    try reflexivity; lia.
Qed.

Lemma rotateSending_spec s c :
  sending s c ->
  _rotateSendingKeys s = Outcome (Return tt) (with_sending (rotated c) s) [].
Proof.
  intros (Hk & Hc & Hn & Hlt). destruct s, c as [ky ch n].
  cbn [sk ck sn rk rn key chain count] in Hk, Hc, Hn, Hlt. subst.
  unfold _rotateSendingKeys. exec. reflexivity.
Qed.

Lemma rotateReceiving_spec s c :
  receiving s c ->
  _rotateRecievingKeys s = Outcome (Return tt) (with_receiving (rotated c) s) [].
Proof.
  intros (Hk & Hc & Hn & Hlt). destruct s, c as [ky ch n].
  cbn [sk ck sn rk rn key chain count] in Hk, Hc, Hn, Hlt. subst.
  unfold _rotateRecievingKeys. exec. reflexivity.
Qed.

Lemma incrementSending_spec s c :
  sending s c ->
  _incrementSendingNonce s =
  Outcome (Return (count c + 1)%N) (set_sn (Some (counter_nonce (count c + 1))) s) [].
Proof.
  intros (Hk & Hc & Hn & Hlt). destruct s, c as [ky ch n].
  cbn [sk ck sn rk rn key chain count] in Hk, Hc, Hn, Hlt. subst.
  unfold _incrementSendingNonce. cbn [count].
  exec. rewrite BufFacts.read_counter by lia. exec.
  rewrite BufFacts.write_counter by lia. exec. reflexivity.
Qed.

Lemma incrementReceiving_spec s c :
  receiving s c ->
  _incrementRecievingNonce s =
  Outcome (Return (count c + 1)%N) (set_rn (Some (counter_nonce (count c + 1))) s) [].
Proof.
  intros (Hk & Hc & Hn & Hlt). destruct s, c as [ky ch n].
  cbn [sk ck sn rk rn key chain count] in Hk, Hc, Hn, Hlt. subst.
  unfold _incrementRecievingNonce. cbn [count].
  exec. rewrite BufFacts.read_counter by lia. exec.
  rewrite BufFacts.write_counter by lia. exec. reflexivity.
Qed.

(** One use of a cipher, followed by [advance], is one step of the
    schedule. *)
Lemma schedule_step c uses :
  (count c < 1000)%N ->
  schedule (key (advance c)) (count (advance c)) uses ->
  schedule (key c) (count c) ((key c, counter_nonce (count c)) :: uses).
Proof.
  intros Hc. unfold advance.
  destruct (N.leb_spec 1000 (count c + 1)) as [Hge|Hlt]; cbn [key count]; intros Hu.
  - apply schedule_rotate with (ck0 := chain c); [lia | exact Hu].
  - apply schedule_keep; assumption.
Qed.

Lemma Some_pair {A B} (a a' : A) (b b' : B) :
  Some (a, b) = Some (a', b') -> a = a' /\ b = b'.
Proof. intros E. split; congruence. Qed.

(** What the schedule says of the use number [i]. *)
Lemma schedule_uses k v uses :
  schedule k v uses ->
  forall i k' n, nth_error uses i = Some (k', n) ->
    ((v + N.of_nat i < 1000)%N -> k' = k /\ n = counter_nonce (v + N.of_nat i)) /\
    ((v + N.of_nat i = 1000)%N ->
       n = counter_nonce 0 /\ exists ck0, k' = skipn 32 (hkdf ck0 k)).
Proof.
  induction 1 as [k v | k v uses Hv _ IH | k v ck0 uses Hv Hs IH];
    intros i k' n Hi.
  - destruct i; discriminate.
  - destruct i as [|i]; cbn [nth_error] in Hi.
    + apply Some_pair in Hi. destruct Hi as (<- & <-).
      rewrite N.add_0_r. split; [auto | lia].
    + specialize (IH i k' n Hi).
      replace (v + N.of_nat (S i))%N with (v + 1 + N.of_nat i)%N by lia.
      exact IH.
  - destruct i as [|i]; cbn [nth_error] in Hi.
    + apply Some_pair in Hi. destruct Hi as (<- & <-).
      rewrite N.add_0_r. split; [auto | lia].
    + split; [lia|]. intros Hvi.
      assert (i = 0) by lia. subst i.
      destruct (IH 0 k' n Hi) as (Hfirst & _).
      destruct Hfirst as (-> & ->); [reflexivity|].
      split; [reflexivity | eauto].
Qed.

Lemma perform_spec o s c r :
  sending s c -> receiving s r ->
  exists c' r',
    sending (fst (perform o s)) c' /\ receiving (fst (perform o s)) r' /\
    (forall uses, schedule (key c') (count c') uses ->
                  schedule (key c) (count c) (seals (snd (perform o s)) ++ uses)) /\
    (forall uses, schedule (key r') (count r') uses ->
                  schedule (key r) (count r) (opens (snd (perform o s)) ++ uses)).
Proof.
  intros Hs Hr.
  pose proof Hs as (Hsk & _ & Hsn & Hc). pose proof Hr as (Hrk & _ & Hrn & Hrc).
  assert (Hsame : exists c' r',
             sending s c' /\ receiving s r' /\
             (forall uses, schedule (key c') (count c') uses ->
                           schedule (key c) (count c) ([] ++ uses)) /\
             (forall uses, schedule (key r') (count r') uses ->
                           schedule (key r) (count r) ([] ++ uses)))
    by (exists c, r; auto).
  destruct o as [m | lc | ct]; cbn [perform fst snd].
  - rewrite (encryptMessage_spec m _ _ Hs).
    destruct (Buf.len m <=? 65535)%N; cbn [final calls seals opens flat_map app];
      [|exact Hsame].
    exists (advance (advance c)),
           (Cipher (key r) (chain (advance (advance c))) (count r)).
    split; [apply sending_with; auto using advance_count|].
    split; [destruct s; repeat split; assumption|].
    split; [|auto].
    intros uses Hu. apply schedule_step; [assumption|].
    apply schedule_step; auto using advance_count.
  - rewrite (decryptLength_spec lc _ _ Hr).
    destruct (ccpDecrypt _ _ _ lc) eqn:E;
      cbn [final calls seals opens flat_map app]; rewrite E;
      [|exact Hsame].
    exists (Cipher (key c) (chain (advance r)) (count c)), (advance r).
    split; [destruct s; repeat split; assumption|].
    split; [apply receiving_with; auto using advance_count|].
    split; [auto|].
    intros uses Hu. apply schedule_step; assumption.
  - rewrite (decryptMessage_spec ct _ _ Hr).
    destruct (ccpDecrypt _ _ _ ct) eqn:E;
      cbn [final calls seals opens flat_map app]; rewrite E;
      [|exact Hsame].
    exists (Cipher (key c) (chain (advance r)) (count c)), (advance r).
    split; [destruct s; repeat split; assumption|].
    split; [apply receiving_with; auto using advance_count|].
    split; [auto|].
    intros uses Hu. apply schedule_step; assumption.
Qed.

Lemma seals_app a b : seals (a ++ b) = seals a ++ seals b.
Proof. apply flat_map_app. Qed.

Lemma opens_app a b : opens (a ++ b) = opens a ++ opens b.
Proof. apply flat_map_app. Qed.

(** Every sequence of transport calls follows the schedule in both
    directions. *)
Lemma perform_all_schedule os :
  forall s c r,
    sending s c -> receiving s r ->
    schedule (key c) (count c) (seals (perform_all os s)) /\
    schedule (key r) (count r) (opens (perform_all os s)).
Proof.
  induction os as [|o os IH]; intros s c r Hs Hr; cbn [perform_all].
  - split; constructor.
  - destruct (perform_spec o s c r Hs Hr) as (c' & r' & Hs' & Hr' & Hseal & Hopen).
    destruct (IH _ _ _ Hs' Hr') as (IHs & IHr).
    rewrite seals_app, opens_app. auto.
Qed.

(** C3.  Take any object reached after act 3 by transport calls.  Its
    sending fields hold a cipher [c] and its receiving fields a cipher [r]
    whose counters, below 1000, sit as little-endian uint16 in bytes 4..5
    of [sn] and [rn].  Then:
    - each increment returns the stored counter plus one and writes it
      back into the nonce;
    - [advance], the step taken after every AEAD call, rotates exactly
      when the call used counter 999, that is when the incremented value
      is 1000, and a rotation leaves the nonce at twelve zero bytes;
    - [encryptMessage], [decryptLength] and [decryptMessage] make their
      AEAD calls with the key and the counter of the cipher and leave the
      cipher advanced once per call, the second call of [encryptMessage]
      already running on the advanced cipher;
    - over every further sequence of transport calls, the uses of the
      sending key and of the receiving key follow the rotation schedule:
      while the counter the cipher started with plus the number of earlier
      uses stays below 1000, a use takes the same key and that number as
      counter; the use after the one with counter 999 takes counter 0 and
      the key from the second half of [hkdf]. *)
Theorem nonce_increment_and_rotation
    (s : NoiseState) (m ct : Buffer) (os : list op) :
  transport s ->
  exists c r,
    sending s c /\ receiving s r /\
    (Buf.readUInt16LE (counter_nonce (count c)) 4 = Some (count c) /\
     _incrementSendingNonce s =
       Outcome (Return (count c + 1)%N)
               (set_sn (Some (counter_nonce (count c + 1))) s) [] /\
     Buf.readUInt16LE (counter_nonce (count r)) 4 = Some (count r) /\
     _incrementRecievingNonce s =
       Outcome (Return (count r + 1)%N)
               (set_rn (Some (counter_nonce (count r + 1))) s) []) /\
    (advance c = (if (count c =? 999)%N then rotated c
                  else Cipher (key c) (chain c) (count c + 1)) /\
     advance r = (if (count r =? 999)%N then rotated r
                  else Cipher (key r) (chain r) (count r + 1))) /\
    (_rotateSendingKeys s = Outcome (Return tt) (with_sending (rotated c) s) [] /\
     _rotateRecievingKeys s = Outcome (Return tt) (with_receiving (rotated r) s) [] /\
     count (rotated c) = 0%N /\ count (rotated r) = 0%N /\
     counter_nonce 0 = Buf.alloc 12) /\
    (encryptMessage m s =
       if (Buf.len m <=? 65535)%N
       then Outcome
              (Return (ccpEncrypt (key c) (counter_nonce (count c)) [] (length_prefix m) ++
                       ccpEncrypt (key (advance c)) (counter_nonce (count (advance c))) [] m))
              (with_sending (advance (advance c)) s)
              [Encrypt (key c) (counter_nonce (count c)) [] (length_prefix m);
               Encrypt (key (advance c)) (counter_nonce (count (advance c))) [] m]
       else Outcome (Throw RangeError) s []) /\
    (decryptLength ct s =
       match ccpDecrypt (key r) (counter_nonce (count r)) [] ct with
       | Some l => Outcome (match Buf.readUInt16BE l 0 with
                            | Some n => Return n
                            | None => Throw RangeError
                            end)
                           (with_receiving (advance r) s)
                           [Decrypt (key r) (counter_nonce (count r)) [] ct]
       | None => Outcome (Throw CryptoError) s
                         [Decrypt (key r) (counter_nonce (count r)) [] ct]
       end) /\
    (decryptMessage ct s =
       match ccpDecrypt (key r) (counter_nonce (count r)) [] ct with
       | Some pt => Outcome (Return pt) (with_receiving (advance r) s)
                            [Decrypt (key r) (counter_nonce (count r)) [] ct]
       | None => Outcome (Throw CryptoError) s
                         [Decrypt (key r) (counter_nonce (count r)) [] ct]
       end) /\
    schedule (key c) (count c) (seals (perform_all os s)) /\
    schedule (key r) (count r) (opens (perform_all os s)) /\
    (forall i k n,
       nth_error (seals (perform_all os s)) i = Some (k, n) ->
       ((count c + N.of_nat i < 1000)%N ->
          k = key c /\ n = counter_nonce (count c + N.of_nat i)) /\
       ((count c + N.of_nat i = 1000)%N ->
          n = counter_nonce 0 /\ exists ck0, k = skipn 32 (hkdf ck0 (key c)))) /\
    (forall i k n,
       nth_error (opens (perform_all os s)) i = Some (k, n) ->
       ((count r + N.of_nat i < 1000)%N ->
          k = key r /\ n = counter_nonce (count r + N.of_nat i)) /\
       ((count r + N.of_nat i = 1000)%N ->
          n = counter_nonce 0 /\ exists ck0, k = skipn 32 (hkdf ck0 (key r)))).
Proof.
  intros T. destruct (transport_ciphers _ T) as (c & r & Hs & Hr & _).
  exists c, r.
  pose proof Hs as (_ & _ & _ & Hc). pose proof Hr as (_ & _ & _ & Hrc).
  destruct (perform_all_schedule os s c r Hs Hr) as (Hss & Hsr).
  pose proof (schedule_uses _ _ _ Hss) as Us.
  pose proof (schedule_uses _ _ _ Hsr) as Ur.
  repeat match goal with
         | |- _ /\ _ => split
         end;
    auto using incrementSending_spec, incrementReceiving_spec, advance_rotates,
               rotateSending_spec, rotateReceiving_spec, encryptMessage_spec,
               decryptLength_spec, decryptMessage_spec;
    try (apply BufFacts.read_counter; lia).
Qed.

(** C9 (as the code has it).  A sending-key rotation changes no field
    other than [ck], [sk] and [sn], and a receiving-key rotation no field
    other than [ck], [rk] and [rn].  Both rotations read and replace the
    one chaining key [ck], so the second of two rotations derives its key
    from the chaining key the first one left: after sending then
    receiving, [rk] comes from [hkdf(ck', rk)] with [ck'] the first half
    of [hkdf(ck, sk)]; after receiving then sending, [sk] comes from
    [hkdf(ck'', sk)] with [ck''] the first half of [hkdf(ck, rk)]. *)
Theorem rotation_frame_and_order (s : NoiseState) :
  same_but_sending s (final (_rotateSendingKeys s)) /\
  same_but_receiving s (final (_rotateRecievingKeys s)) /\
  match sk s, rk s, ck s with
  | Some a, Some b, Some c =>
      let sr := final (_rotateRecievingKeys (final (_rotateSendingKeys s))) in
      let rs := final (_rotateSendingKeys (final (_rotateRecievingKeys s))) in
      sk sr = Some (skipn 32 (hkdf c a)) /\
      rk sr = Some (skipn 32 (hkdf (firstn 32 (hkdf c a)) b)) /\
      rk rs = Some (skipn 32 (hkdf c b)) /\
      sk rs = Some (skipn 32 (hkdf (firstn 32 (hkdf c b)) a))
  | _, _, _ => True
  end.
Proof.
  destruct s. unfold same_but_sending, same_but_receiving,
    _rotateSendingKeys, _rotateRecievingKeys.
  repeat split; run; repeat split; reflexivity.
Qed.

End TransportProperties.

(* ================================================================= *)
(** ** Frames on the wire *)

Section Frames.

Context {crypto : Crypto}.

(** The AEAD appends a 16-byte tag, and opens what it has sealed. *)
Hypothesis ccp_length :
  forall k n ad pt, length (ccpEncrypt k n ad pt) = length pt + 16.
Hypothesis ccp_roundtrip :
  forall k n ad pt, ccpDecrypt k n ad (ccpEncrypt k n ad pt) = Some pt.

(** C7.  On any object reached after act 3 by transport calls, the sending
    fields hold a cipher [c]: [sk] is its key and [sn] the nonce of its
    counter.  [encryptMessage(m)] with [|m| <= 65535] returns
    [lc || body]: [lc] is the AEAD encryption, under [sk], [sn] and empty
    associated data, of the two-byte big-endian length of [m], and is 18
    bytes long; [body] is the AEAD encryption of [m] under the cipher as it
    stands after one use, and is [|m| + 16] bytes long.  The frame is
    [|m| + 34] bytes long, 34 for the empty message. *)
Theorem encryptMessage_frame (s : NoiseState) (m : Buffer) :
  transport s ->
  (Buf.len m <= 65535)%N ->
  exists c,
    let lc := ccpEncrypt (key c) (counter_nonce (count c)) [] (length_prefix m) in
    let body := ccpEncrypt (key (advance c)) (counter_nonce (count (advance c))) [] m in
    sk s = Some (key c) /\
    sn s = Some (counter_nonce (count c)) /\
    result (encryptMessage m s) = Return (lc ++ body) /\
    Buf.readUInt16BE (length_prefix m) 0 = Some (Buf.len m) /\
    length (length_prefix m) = 2 /\
    length lc = 18 /\
    length body = length m + 16 /\
    length (lc ++ body) = length m + 34 /\
    exists frame0, result (encryptMessage [] s) = Return frame0 /\ length frame0 = 34.
Proof.
  intros T Hm. destruct (transport_ciphers _ T) as (c & _ & Hs & _ & _).
  exists c. intros lc body. pose proof Hs as (Hk & _ & Hn & _).
  assert (Hlc : length lc = 18) by (unfold lc; now rewrite ccp_length).
  assert (Hbody : length body = length m + 16) by (unfold body; now rewrite ccp_length).
  rewrite (encryptMessage_spec m _ _ Hs), (encryptMessage_spec [] _ _ Hs).
  apply N.leb_le in Hm. rewrite Hm. cbn [Buf.len length N.of_nat N.leb N.compare result].
  repeat split; auto.
  - apply BufFacts.read_length_prefix. now apply N.leb_le.
  - rewrite length_app. lia.
  - eexists; split; [reflexivity|].
    rewrite length_app, !ccp_length. reflexivity.
Qed.

(** C4.  Take a sender and a receiver that are transport objects, the
    receiver's [rk] equal to the sender's [sk] and its [rn] equal to the
    sender's [sn].  For every [m] with [|m| <= 65535], [encryptMessage(m)]
    on the sender returns a frame; on the receiver, [decryptLength] of
    the first 18 bytes of the frame returns [|m|], and [decryptMessage]
    of the remaining bytes then returns [m]. *)
Theorem frame_roundtrip (sender receiver : NoiseState) (m : Buffer) :
  transport sender ->
  transport receiver ->
  rk receiver = sk sender ->
  rn receiver = sn sender ->
  (Buf.len m <= 65535)%N ->
  exists frame,
    result (encryptMessage m sender) = Return frame /\
    result (decryptLength (firstn 18 frame) receiver) = Return (Buf.len m) /\
    result (decryptMessage (skipn 18 frame)
              (final (decryptLength (firstn 18 frame) receiver))) = Return m.
Proof.
  intros Ts Tr Ek En Hm.
  destruct (transport_ciphers _ Ts) as (c & _ & Hs & _ & He).
  destruct (transport_ciphers _ Tr) as (_ & r & _ & Hr & _).
  pose proof Hs as (Hsk & _ & Hsn & Hc). pose proof Hr as (Hrk & _ & Hrn & Hrc).
  assert (Ekey : key r = key c) by congruence.
  assert (Ecount : count r = count c)
    by (apply counter_nonce_inj; congruence).
  assert (count c <> 999)%N by (intros E; rewrite E in He; discriminate).
  assert (Ha : advance c = Cipher (key c) (chain c) (count c + 1)).
  { rewrite advance_rotates by assumption.
    destruct (N.eqb_spec (count c) 999); congruence. }
  assert (Hb : advance r = Cipher (key c) (chain r) (count c + 1)).
  { rewrite advance_rotates by assumption. rewrite Ekey, Ecount.
    destruct (N.eqb_spec (count c) 999); congruence. }
  rewrite (encryptMessage_spec m _ _ Hs).
  pose proof Hm as Hm'. apply N.leb_le in Hm'. rewrite Hm'. cbn [result].
  eexists. split; [reflexivity|].
  rewrite BufFacts.firstn_exact, BufFacts.skipn_exact by (now rewrite ccp_length).
  rewrite (decryptLength_spec _ _ _ Hr), Ekey, Ecount, ccp_roundtrip.
  rewrite BufFacts.read_length_prefix by assumption. cbn [result final].
  split; [reflexivity|].
  assert (Hr1 : receiving (with_receiving (advance r) receiver) (advance r))
    by (apply receiving_with; now apply advance_count).
  rewrite (decryptMessage_spec _ _ _ Hr1), Ha, Hb. cbn [key count].
  now rewrite ccp_roundtrip.
Qed.

End Frames.

(* ================================================================= *)
(** ** Key agreement *)

Section KeyAgreement.

Context {crypto : Crypto}.

Hypothesis pub_length : forall priv, length (getPublicKey priv) = 33.
Hypothesis ecdh_comm :
  forall a b, ecdh (getPublicKey a) b = ecdh (getPublicKey b) a.
Hypothesis ccp_length :
  forall k n ad pt, length (ccpEncrypt k n ad pt) = length pt + 16.
Hypothesis ccp_roundtrip :
  forall k n ad pt, ccpDecrypt k n ad (ccpEncrypt k n ad pt) = Some pt.
Hypothesis hkdf_length : forall salt ikm, length (hkdf salt ikm) = 64.

(** The receiver's view of an act 1 or act 2 message. *)
Lemma act12_message k n ad e :
  let m := Buf.alloc 1 ++ getPublicKey e ++ ccpEncrypt k n ad (Buf.alloc 0) in
  length m = 50 /\
  Buf.slice 1 34 m = getPublicKey e /\
  Buf.slice_from 34 m = ccpEncrypt k n ad (Buf.alloc 0) /\
  Buf.is_zero (nth_error (Buf.slice 0 1 m) 0) = true.
Proof.
  intros m.
  destruct (BufFacts.parse_message (getPublicKey e)
              (ccpEncrypt k n ad (Buf.alloc 0)) 33 (pub_length e)) as (E1 & E2 & E3).
  subst m. rewrite E1, E2, E3. repeat split.
  cbn [Buf.alloc repeat app length]. rewrite length_app, pub_length, ccp_length.
  reflexivity.
Qed.

(** The receiver's view of an act 3 message. *)
Lemma act3_message k n ad k' n' ad' spub :
  let c := ccpEncrypt k n ad (getPublicKey spub) in
  let t := ccpEncrypt k' n' ad' (Buf.alloc 0) in
  let m := Buf.alloc 1 ++ c ++ t in
  length m = 66 /\
  Buf.slice 1 50 m = c /\
  Buf.slice_from 50 m = t /\
  Buf.is_zero (nth_error (Buf.slice 0 1 m) 0) = true.
Proof.
  intros c t m.
  assert (Hc : length c = 49) by (unfold c; now rewrite ccp_length, pub_length).
  destruct (BufFacts.parse_message c t 49 Hc) as (E1 & E2 & E3).
  subst m. rewrite E1, E2, E3. repeat split.
  cbn [Buf.alloc repeat app length]. rewrite length_app, Hc. unfold t.
  rewrite ccp_length. reflexivity.
Qed.

Lemma Return_inj {A} (a b : A) : Return a = Return b -> a = b.
Proof. congruence. Qed.

(** C1.  Run the handshake between two fresh objects, the initiator
    calling [initiatorAct1] with the responder's static public key and
    each side receiving the message the other produced.  If all six acts
    return, then the initiator's [sk] is the responder's [rk] and the
    initiator's [rk] is the responder's [sk].  Both sides end with the
    same chaining key [ck]; of the 64 bytes of [hkdf(ck, empty)] the
    initiator takes the first 32 as [sk] and the second 32 as [rk], the
    responder the first 32 as [rk] and the second 32 as [sk]. *)
Theorem handshake_keys_agree (ls_i es_i ls_r es_r m1 m2 m3 : Buffer) :
  let i0 := new ls_i es_i in
  let r0 := new ls_r es_r in
  let i1 := final (initiatorAct1 (lpk r0) i0) in
  let r1 := final (receiveAct1 m1 r0) in
  let r2 := final (recieveAct2 r1) in
  let i2 := final (initiatorAct2 m2 i1) in
  let i3 := final (initiatorAct3 i2) in
  let r3 := final (receiveAct3 m3 r2) in
  result (initiatorAct1 (lpk r0) i0) = Return m1 ->
  result (receiveAct1 m1 r0) = Return tt ->
  result (recieveAct2 r1) = Return m2 ->
  result (initiatorAct2 m2 i1) = Return tt ->
  result (initiatorAct3 i2) = Return m3 ->
  result (receiveAct3 m3 r2) = Return tt ->
  sk i3 = rk r3 /\
  rk i3 = sk r3 /\
  exists ck3,
    ck i3 = Some ck3 /\ ck r3 = Some ck3 /\
    sk i3 = Some (firstn 32 (hkdf ck3 [])) /\
    rk i3 = Some (firstn 32 (skipn 32 (hkdf ck3 []))) /\
    rk r3 = Some (firstn 32 (hkdf ck3 [])) /\
    sk r3 = Some (firstn 32 (skipn 32 (hkdf ck3 []))).
Proof.
  intros i0 r0 i1 r1 r2 i2 i3 r3 A1 B1 B2 A2 A3 B3.
  subst i0 r0 i1 r1 r2 i2 i3 r3.
  (* act 1, initiator *)
  destruct (ecdh (getPublicKey ls_r) es_i) as [ss1|] eqn:E1.
  2: { revert A1. unfold initiatorAct1, _initialize, new. exec.
       rewrite E1. discriminate. }
  eassert (O : initiatorAct1 (lpk (new ls_r es_r)) (new ls_i es_i) = _).
  { unfold initiatorAct1, _initialize, new. exec. rewrite E1. exec. reflexivity. }
  rewrite O in A1, A2, A3 |- *. cbn [result final] in A1, A2, A3 |- *. clear O.
  apply Return_inj in A1. subst m1.
  (* act 1, responder *)
  match type of B1 with
  | result (receiveAct1 ?m _) = _ => eassert (O : receiveAct1 m (new ls_r es_r) = _)
  end.
  { unfold receiveAct1, _initialize, new.
    match goal with
    | |- context [Buf.slice 1 34 (Buf.alloc 1 ++ getPublicKey ?e ++ ccpEncrypt ?k ?n ?ad _)] =>
        destruct (act12_message k n ad e) as (L & P1 & P2 & P3)
    end.
    rewrite L, P1, P2, P3. cbn [Nat.eqb].
    exec. rewrite ecdh_comm, E1. exec. rewrite ccp_roundtrip. exec. reflexivity. }
  rewrite O in B2, B3 |- *. cbn [result final] in B2, B3 |- *. clear O B1.
  (* act 2, responder *)
  destruct (ecdh (getPublicKey es_i) es_r) as [ss2|] eqn:E2.
  2: { revert B2. unfold recieveAct2. exec. rewrite E2. discriminate. }
  match type of B2 with
  | result (recieveAct2 ?s) = _ => eassert (O : recieveAct2 s = _)
  end.
  { unfold recieveAct2. exec. rewrite E2. exec. reflexivity. }
  rewrite O in B2, B3 |- *. cbn [result final] in B2, B3 |- *. clear O.
  apply Return_inj in B2. subst m2.
  (* act 2, initiator *)
  match type of A2 with
  | result (initiatorAct2 ?m ?s) = _ => eassert (O : initiatorAct2 m s = _)
  end.
  { unfold initiatorAct2.
    match goal with
    | |- context [Buf.slice 1 34 (Buf.alloc 1 ++ getPublicKey ?e ++ ccpEncrypt ?k ?n ?ad _)] =>
        destruct (act12_message k n ad e) as (L & P1 & P2 & P3)
    end.
    rewrite L, P1, P2, P3. cbn [Nat.eqb].
    exec. rewrite ecdh_comm, E2. exec. rewrite ccp_roundtrip. exec. reflexivity. }
  rewrite O in A3 |- *. cbn [result final] in A3 |- *. clear O A2.
  (* act 3, initiator *)
  destruct (ecdh (getPublicKey es_r) ls_i) as [ss3|] eqn:E3.
  2: { revert A3. unfold initiatorAct3. exec. rewrite E3. discriminate. }
  match type of A3 with
  | result (initiatorAct3 ?s) = _ => eassert (O : initiatorAct3 s = _)
  end.
  { unfold initiatorAct3. exec. rewrite E3. exec. reflexivity. }
  rewrite O in A3 |- *. cbn [result final] in A3 |- *. clear O.
  apply Return_inj in A3. subst m3.
  (* act 3, responder *)
  match type of B3 with
  | result (receiveAct3 ?m ?s) = _ => eassert (O : receiveAct3 m s = _)
  end.
  { unfold receiveAct3.
    match goal with
    | |- context [Buf.slice 1 50 (Buf.alloc 1 ++ ccpEncrypt ?k ?n ?ad (getPublicKey ?p) ++
                                 ccpEncrypt ?k' ?n' ?ad' _)] =>
        destruct (act3_message k n ad k' n' ad' p) as (L & P1 & P2 & P3)
    end.
    rewrite L, P1, P2, P3. cbn [Nat.eqb].
    exec. rewrite ccp_roundtrip. exec. rewrite ecdh_comm, E3. exec.
    rewrite ccp_roundtrip. exec. reflexivity. }
  rewrite O. cbn [result final]. clear O B3.
  cbn [sk rk ck].
  split; [reflexivity|]. split; [reflexivity|].
  eexists. split; [reflexivity|]. split; [reflexivity|].
  change (Buf.alloc 0) with (@nil byte).
  change (Buf.slice 0 32 ?b) with (firstn 32 b).
  change (Buf.slice_from 32 ?b) with (skipn 32 b).
  rewrite (firstn_all2 (n := 32) (skipn 32 _))
    by (rewrite length_skipn, hkdf_length; reflexivity).
  repeat split; reflexivity.
Qed.


End KeyAgreement.
(* ================================================================= *)
(** ** What the methods leave alone *)

Section FrameRelations.

Context {crypto : Crypto}.

Section Respects.

Variable R : NoiseState -> NoiseState -> Prop.
Hypothesis R_refl : forall s, R s s.
Hypothesis R_trans : forall s1 s2 s3, R s1 s2 -> R s2 s3 -> R s1 s3.

Lemma respects_bind {A B} (m : M A) (k : A -> M B) :
  respects R m -> (forall a, respects R (k a)) -> respects R (bind m k).
Proof.
  intros Hm Hk s. unfold bind. specialize (Hm s).
  destruct (m s) as [[a|e] s1 cs1]; cbn [final] in *; [|assumption].
  specialize (Hk a s1). destruct (k a s1) as [r s2 cs2]; cbn [final] in *.
  eauto.
Qed.

Lemma respects_pure {A} (m : M A) :
  (forall s, final (m s) = s) -> respects R m.
Proof. intros H s. rewrite H. apply R_refl. Qed.

Lemma respects_assign (u : NoiseState -> NoiseState) :
  (forall s, R s (u s)) -> respects R (assign u).
Proof. intros H s. apply H. Qed.

Lemma respects_when c (m : M unit) : respects R m -> respects R (when c m).
Proof. intros H. destruct c; [exact H | now apply respects_pure]. Qed.

End Respects.

End FrameRelations.

Section FrameProperties.

Context {crypto : Crypto}.

Lemma final_use f s : final (use f s) = s.
Proof. unfold use. now destruct (f s). Qed.

Lemma final_ranged {A} (r : option A) s : final (ranged r s) = s.
Proof. now destruct r. Qed.

Lemma final_throw_if c msg s : final (throw_if c msg s) = s.
Proof. now destruct c. Qed.

Lemma final_do_ecdh p q s : final (do_ecdh p q s) = s.
Proof. unfold do_ecdh. now destruct (ecdh p q). Qed.

Lemma same_keys_refl s : same_keys s s.
Proof. repeat split. Qed.

Lemma same_keys_trans s1 s2 s3 :
  same_keys s1 s2 -> same_keys s2 s3 -> same_keys s1 s3.
Proof.
  unfold same_keys. intros (A1 & A2 & A3 & A4) (B1 & B2 & B3 & B4).
  repeat split; congruence.
Qed.

Lemma same_transport_refl s : same_transport s s.
Proof. repeat split. Qed.

Lemma same_transport_trans s1 s2 s3 :
  same_transport s1 s2 -> same_transport s2 s3 -> same_transport s1 s3.
Proof.
  unfold same_transport. intros (A1 & A2 & A3 & A4) (B1 & B2 & B3 & B4).
  repeat split; congruence.
Qed.

Lemma same_but_sending_refl s : same_but_sending s s.
Proof. repeat split. Qed.

Lemma same_but_sending_trans s1 s2 s3 :
  same_but_sending s1 s2 -> same_but_sending s2 s3 -> same_but_sending s1 s3.
Proof.
  unfold same_but_sending.
  intros (A1 & A2 & A3 & A4 & A5 & A6 & A7 & A8 & A9 & A10 & A11 & A12)
         (B1 & B2 & B3 & B4 & B5 & B6 & B7 & B8 & B9 & B10 & B11 & B12).
  repeat split; congruence.
Qed.

Lemma same_but_receiving_refl s : same_but_receiving s s.
Proof. repeat split. Qed.

Lemma same_but_receiving_trans s1 s2 s3 :
  same_but_receiving s1 s2 -> same_but_receiving s2 s3 -> same_but_receiving s1 s3.
Proof.
  unfold same_but_receiving.
  intros (A1 & A2 & A3 & A4 & A5 & A6 & A7 & A8 & A9 & A10 & A11 & A12)
         (B1 & B2 & B3 & B4 & B5 & B6 & B7 & B8 & B9 & B10 & B11 & B12).
  repeat split; congruence.
Qed.

End FrameProperties.

(** Walks a method body: every step either leaves the object alone or
    assigns a field outside the relation's frame. *)
Ltac frame_steps refl trans :=
  repeat (cbv zeta; first
    [ apply (respects_bind _ trans); [| intros ?]
    | apply respects_when
    | apply (respects_pure _ refl); intros ?;
      first [ reflexivity | apply final_use | apply final_ranged
            | apply final_throw_if | apply final_do_ecdh ]
    | apply respects_assign; intros []; repeat split; reflexivity ]).

Ltac unfold_methods :=
  unfold initiatorAct1, initiatorAct2, initiatorAct3,
         receiveAct1, recieveAct2, receiveAct3,
         encryptMessage, decryptLength, decryptMessage,
         _initialize, _incrementSendingNonce, _incrementRecievingNonce,
         _rotateSendingKeys, _rotateRecievingKeys.

Section FrameTheorems.

Context {crypto : Crypto}.

(** X1.  No method changes the key material that the constructor stored:
    after every call of a handshake act or of a transport method, on every
    object and with every argument, and whether the call returned or
    threw, [ls], [lpk], [es] and [epk] are what they were. *)
Theorem key_material_is_kept (s : NoiseState) (b : Buffer) :
  same_keys s (final (initiatorAct1 b s)) /\
  same_keys s (final (initiatorAct2 b s)) /\
  same_keys s (final (initiatorAct3 s)) /\
  same_keys s (final (receiveAct1 b s)) /\
  same_keys s (final (recieveAct2 s)) /\
  same_keys s (final (receiveAct3 b s)) /\
  same_keys s (final (encryptMessage b s)) /\
  same_keys s (final (decryptLength b s)) /\
  same_keys s (final (decryptMessage b s)).
Proof.
  repeat match goal with |- _ /\ _ => split end;
    match goal with
    | |- same_keys s (final (?m s)) => revert s; change (respects same_keys m)
    end;
    unfold_methods; frame_steps same_keys_refl same_keys_trans.
Qed.

(** X2.  The transport methods stay inside their direction: on every
    object and input, returning or throwing, [encryptMessage] changes no
    field other than [ck], [sk] and [sn], and [decryptLength] and
    [decryptMessage] change no field other than [ck], [rk] and [rn]. *)
Theorem transport_methods_frame (s : NoiseState) (b : Buffer) :
  same_but_sending s (final (encryptMessage b s)) /\
  same_but_receiving s (final (decryptLength b s)) /\
  same_but_receiving s (final (decryptMessage b s)).
Proof.
  split; [|split].
  - revert s. change (respects same_but_sending (encryptMessage b)).
    unfold_methods. frame_steps same_but_sending_refl same_but_sending_trans.
  - revert s. change (respects same_but_receiving (decryptLength b)).
    unfold_methods. frame_steps same_but_receiving_refl same_but_receiving_trans.
  - revert s. change (respects same_but_receiving (decryptMessage b)).
    unfold_methods. frame_steps same_but_receiving_refl same_but_receiving_trans.
Qed.

(** X3.  The first two acts of either side never touch the transport
    fields: after [initiatorAct1], [initiatorAct2], [receiveAct1] and
    [recieveAct2], on every object and input, [sk], [rk], [sn] and [rn]
    are what they were, so only an act 3 installs transport keys. *)
Theorem early_acts_keep_transport_fields (s : NoiseState) (b : Buffer) :
  same_transport s (final (initiatorAct1 b s)) /\
  same_transport s (final (initiatorAct2 b s)) /\
  same_transport s (final (receiveAct1 b s)) /\
  same_transport s (final (recieveAct2 s)).
Proof.
  repeat match goal with |- _ /\ _ => split end;
    match goal with
    | |- same_transport s (final (?m s)) => revert s; change (respects same_transport m)
    end;
    unfold_methods; frame_steps same_transport_refl same_transport_trans.
Qed.

End FrameTheorems.

(* ================================================================= *)
(** ** Edge cases of the transport methods and what the acts read *)

Section EdgeCases.

Context {crypto : Crypto}.

(** X4.  A transport read that the AEAD rejects is undone: whenever
    [decryptLength] or [decryptMessage] throws the AEAD's error, on any
    object, the object is exactly what it was before the call, so the nonce
    is not consumed and the same object can take the next frame. *)
Theorem rejected_read_changes_nothing (s : NoiseState) (ct : Buffer) :
  (result (decryptLength ct s) = Throw CryptoError ->
   final (decryptLength ct s) = s) /\
  (result (decryptMessage ct s) = Throw CryptoError ->
   final (decryptMessage ct s) = s).
Proof.
  destruct s.
  split; unfold decryptLength, decryptMessage, _incrementRecievingNonce,
           _rotateRecievingKeys; run; intros E; try discriminate E; reflexivity.
Qed.

(** X5.  Before transport keys exist the transport methods refuse to work
    and touch nothing: on an object whose [sk] is still undefined,
    [encryptMessage] throws a [TypeError] for a message of at most 65535
    bytes and a [RangeError] for a longer one; on an object whose [rk] is
    still undefined, [decryptLength] and [decryptMessage] throw a
    [TypeError].  In each case the object is unchanged and the AEAD is not
    called. *)
Theorem transport_needs_keys (s : NoiseState) (b : Buffer) :
  sk s = None -> rk s = None ->
  encryptMessage b s =
    Outcome (Throw (if (Buf.len b <=? 65535)%N then TypeError else RangeError)) s [] /\
  decryptLength b s = Outcome (Throw TypeError) s [] /\
  decryptMessage b s = Outcome (Throw TypeError) s [].
Proof.
  destruct s; cbn [sk rk]; intros -> ->.
  repeat split.
  - unfold encryptMessage.
    destruct (Buf.len b <=? 65535)%N eqn:L.
    + apply N.leb_le in L. rewrite (BufFacts.write_length_prefix b L).
      exec. reflexivity.
    + apply N.leb_gt in L. rewrite (BufFacts.write_length_overflow b L).
      exec. reflexivity.
Qed.

End EdgeCases.

Section ReadSets.

Context {crypto : Crypto}.

Lemma readUInt16BE_bound b off n : Buf.readUInt16BE b off = Some n -> (n <= 65535)%N.
Proof.
  unfold Buf.readUInt16BE.
  destruct (nth_error b off) as [hi|]; [|discriminate].
  destruct (nth_error b (S off)) as [lo|]; [|discriminate].
  intros E. assert (n = 256 * Byte.to_N hi + Byte.to_N lo)%N as -> by congruence.
  pose proof (Byte.to_N_bounded hi). pose proof (Byte.to_N_bounded lo). lia.
Qed.

(** X6.  Only [initiatorAct3] and [receiveAct1] read the static key pair.
    Every other method does on an object with another [ls] and [lpk]
    exactly what it does on the object itself: the same completion, the
    same AEAD calls and the same values in all other fields.  In
    particular nothing the initiator sends before act 3 depends on its
    static key. *)
Theorem static_key_read_only_by_two_acts (s : NoiseState) (l p b : Buffer) :
  initiatorAct1 b (with_static l p s) = on_final (with_static l p) (initiatorAct1 b s) /\
  initiatorAct2 b (with_static l p s) = on_final (with_static l p) (initiatorAct2 b s) /\
  recieveAct2 (with_static l p s) = on_final (with_static l p) (recieveAct2 s) /\
  receiveAct3 b (with_static l p s) = on_final (with_static l p) (receiveAct3 b s) /\
  encryptMessage b (with_static l p s) = on_final (with_static l p) (encryptMessage b s) /\
  decryptLength b (with_static l p s) = on_final (with_static l p) (decryptLength b s) /\
  decryptMessage b (with_static l p s) = on_final (with_static l p) (decryptMessage b s).
Proof.
  destruct s. unfold with_static, on_final.
  repeat match goal with |- _ /\ _ => split end;
    unfold_methods; run; reflexivity.
Qed.

(** X7.  An act 1 starts the handshake over.  Whatever earlier calls left
    in the object, [initiatorAct1] and [receiveAct1] complete the same way,
    make the same AEAD calls and leave the same [h] and [ck] as on the
    object fresh from its constructor; when they return, [tempK1] and the
    remote key they stored are the same as well. *)
Theorem act1_starts_over (s : NoiseState) (b : Buffer) :
  let a := initiatorAct1 b s in
  let a0 := initiatorAct1 b (fresh s) in
  let r := receiveAct1 b s in
  let r0 := receiveAct1 b (fresh s) in
  (result a = result a0 /\ calls a = calls a0 /\
   h (final a) = h (final a0) /\ ck (final a) = ck (final a0) /\
   match result a with
   | Return _ => tempK1 (final a) = tempK1 (final a0) /\ rpk (final a) = rpk (final a0)
   | Throw _ => True
   end) /\
  (result r = result r0 /\ calls r = calls r0 /\
   h (final r) = h (final r0) /\ ck (final r) = ck (final r0) /\
   match result r with
   | Return _ => tempK1 (final r) = tempK1 (final r0) /\ repk (final r) = repk (final r0)
   | Throw _ => True
   end).
Proof.
  destruct s. unfold fresh. cbv zeta.
  split; unfold_methods; run; repeat split; reflexivity.
Qed.

(** X8.  A length that [decryptLength] returns is a 16-bit number: on every
    object and input the returned value is at most 65535. *)
Theorem decryptLength_range (s : NoiseState) (lc : Buffer) :
  match result (decryptLength lc s) with
  | Return n => (n <= 65535)%N
  | Throw _ => True
  end.
Proof.
  destruct s. unfold_methods. run; try exact I;
    eauto using readUInt16BE_bound.
Qed.

End ReadSets.

(* ================================================================= *)
(** ** Streams of frames *)

Section Streams.

Context {crypto : Crypto}.

Hypothesis ccp_length :
  forall k n ad pt, length (ccpEncrypt k n ad pt) = length pt + 16.
Hypothesis ccp_roundtrip :
  forall k n ad pt, ccpDecrypt k n ad (ccpEncrypt k n ad pt) = Some pt.

Lemma linked_sym a b : linked a b -> linked b a.
Proof. intros (c & d & H1 & H2 & H3 & H4). exists d, c. auto. Qed.

Lemma receiving_under_sending s c d :
  receiving s d -> receiving (with_sending c s) (Cipher (key d) (chain c) (count d)).
Proof. destruct s. intros (H1 & H2 & H3 & H4). repeat split; assumption. Qed.

Lemma sending_under_receiving s c d :
  sending s d -> sending (with_receiving c s) (Cipher (key d) (chain c) (count d)).
Proof. destruct s. intros (H1 & H2 & H3 & H4). repeat split; assumption. Qed.

Lemma receiving_over s c c' : receiving (with_receiving c' (with_receiving c s)) c' <->
  (count c' < 1000)%N.
Proof. destruct s. split; [intros (_ & _ & _ & H); exact H | intros H; repeat split; exact H]. Qed.

(** One frame from a sender to the receiver linked with it. *)
Lemma deliver_one (a b : NoiseState) (m rest : Buffer) :
  linked a b -> (Buf.len m <= 65535)%N ->
  exists frame a' b1 b' cs1 cs2,
    encryptMessage m a = Outcome (Return frame) a' cs1 /\
    length frame = length m + 34 /\
    decryptLength (firstn 18 (frame ++ rest)) b = Outcome (Return (Buf.len m)) b1 cs2 /\
    (exists cs3, decryptMessage (firstn (length m + 16) (skipn 18 (frame ++ rest))) b1 =
      Outcome (Return m) b' cs3) /\
    skipn (length m + 16) (skipn 18 (frame ++ rest)) = rest /\
    linked a' b'.
Proof.
  intros (c & d & Hs & Hr & Hs' & Hr') Hm.
  pose proof Hs as (_ & _ & _ & Hc).
  pose proof (advance_count _ Hc) as Hc1.
  pose proof (advance_count _ Hc1) as Hc2.
  set (lc := ccpEncrypt (key c) (counter_nonce (count c)) [] (length_prefix m)).
  set (body := ccpEncrypt (key (advance c)) (counter_nonce (count (advance c))) [] m).
  assert (Llc : length lc = 18) by (unfold lc; now rewrite ccp_length).
  assert (Lbody : length body = length m + 16) by (unfold body; now rewrite ccp_length).
  assert (F1 : firstn 18 ((lc ++ body) ++ rest) = lc)
    by (rewrite <- app_assoc; now apply BufFacts.firstn_exact).
  assert (F2 : skipn 18 ((lc ++ body) ++ rest) = body ++ rest)
    by (rewrite <- app_assoc; now apply BufFacts.skipn_exact).
  assert (Hr1 : receiving (with_receiving (advance c) b) (advance c))
    by now apply receiving_with.
  do 6 eexists.
  rewrite (encryptMessage_spec m a c Hs).
  apply N.leb_le in Hm. rewrite Hm. apply N.leb_le in Hm.
  fold lc body. split; [reflexivity|].
  split; [rewrite length_app; lia|].
  rewrite F1, F2, (decryptLength_spec lc b c Hr). unfold lc at 1.
  rewrite ccp_roundtrip, (BufFacts.read_length_prefix m Hm).
  split; [reflexivity|].
  rewrite (BufFacts.firstn_exact body rest _ Lbody),
          (BufFacts.skipn_exact body rest _ Lbody).
  rewrite (decryptMessage_spec body _ _ Hr1). unfold body at 1.
  rewrite ccp_roundtrip.
  split; [eexists; reflexivity|]. split; [reflexivity|].
  exists (advance (advance c)),
         (Cipher (key d) (chain (advance (advance c))) (count d)).
  split; [now apply sending_with|].
  split; [now apply receiving_over|].
  split.
  - destruct b; destruct Hs' as (H1 & H2 & H3 & H4); repeat split; assumption.
  - now apply receiving_under_sending.
Qed.

Lemma stream_delivery (ms : list Buffer) : forall (a b : NoiseState) (fuel : nat),
  linked a b ->
  Forall (fun m => (Buf.len m <= 65535)%N) ms ->
  length ms <= fuel ->
  exists stream a' b',
    write_all ms a = Some (stream, a') /\
    length ms <= length stream /\
    read_all fuel stream b = (ms, b') /\
    linked a' b'.
Proof.
  induction ms as [|m ms IH]; intros a b fuel L F Hf.
  - exists [], a, b. cbn [write_all length]. repeat split; auto.
    destruct fuel; reflexivity.
  - inversion F as [|? ? Hm F']; subst.
    destruct fuel as [|fuel]; [cbn [length] in Hf; lia|].
    cbn [length] in Hf. apply le_S_n in Hf.
    (* the stream that follows this frame *)
    destruct (deliver_one a b m [] L Hm) as (frame & a1 & _ & b0 & cs1 & _ & E0 & _ & _ & _ & _ & L0).
    destruct (IH a1 b0 fuel L0 F' Hf) as (rest & a2 & _ & W & _ & _ & _).
    destruct (deliver_one a b m rest L Hm)
      as (frame' & a1' & b1 & b2 & cs1' & cs2 & E1 & Lf & E2 & (cs3 & E3) & E4 & L2).
    assert (frame' = frame /\ a1' = a1) as (-> & ->) by (split; congruence).
    destruct (IH a1 b2 fuel L2 F' Hf) as (rest' & a2' & b3 & W' & Lr & R & L3).
    assert (rest' = rest /\ a2' = a2) as (-> & ->) by (split; congruence).
    exists (frame ++ rest), a2, b3.
    cbn [write_all read_all]. rewrite E1, W.
    split; [reflexivity|].
    split; [cbn [length]; rewrite length_app; lia|].
    assert ((length (frame ++ rest) <? 18) = false) as ->
      by (apply Nat.ltb_ge; rewrite length_app; lia).
    rewrite E2. cbv zeta.
    unfold Buf.len. rewrite Nat2N.id.
    assert ((length (skipn 18 (frame ++ rest)) <? length m + 16) = false) as ->
      by (apply Nat.ltb_ge; rewrite length_skipn, length_app; lia).
    rewrite E3, E4, R. split; [reflexivity | assumption].
Qed.

(** X9.  A stream of frames is read back message by message.  Take two
    objects whose transport fields fit together: what one holds for
    sending the other holds for receiving, with the same chaining key.
    Write any number of messages of at most 65535 bytes each with
    [encryptMessage] and concatenate the frames; every call returns.  A
    reader that alternates [decryptLength] on 18 bytes and [decryptMessage]
    on the announced length plus 16 gets back exactly the messages written,
    in order, also across key rotations, and the two objects fit together
    again afterwards, so the stream can go on in either direction. *)
Theorem stream_roundtrip (ms : list Buffer) (a b : NoiseState) :
  linked a b ->
  Forall (fun m => (Buf.len m <= 65535)%N) ms ->
  exists stream a' b',
    write_all ms a = Some (stream, a') /\
    read_all (length stream) stream b = (ms, b') /\
    linked a' b' /\ linked b' a'.
Proof.
  intros L F.
  destruct (stream_delivery ms a b (length ms) L F (le_n _))
    as (stream & a' & _ & W & Ls & _ & _).
  destruct (stream_delivery ms a b (length stream) L F Ls)
    as (stream' & a'' & b' & W' & _ & R & L').
  assert (stream' = stream /\ a'' = a') as (-> & ->) by (split; congruence).
  exists stream, a', b'. auto using linked_sym.
Qed.

End Streams.

(* ================================================================= *)
(** ** The handshake as a whole *)

Section HandshakeRun.

Context {crypto : Crypto}.

Hypothesis pub_length : forall priv, length (getPublicKey priv) = 33.
Hypothesis ecdh_comm :
  forall a b, ecdh (getPublicKey a) b = ecdh (getPublicKey b) a.
Hypothesis ccp_length :
  forall k n ad pt, length (ccpEncrypt k n ad pt) = length pt + 16.
Hypothesis ccp_roundtrip :
  forall k n ad pt, ccpDecrypt k n ad (ccpEncrypt k n ad pt) = Some pt.

Ltac next_act :=
  cbv beta iota;
  match goal with
  | |- context [match ?act with Outcome _ _ _ => _ end] =>
      eassert (O : act = _)
  end.

Lemma handshake_run (ls_i es_i ls_r es_r : Buffer) :
  match ecdh (getPublicKey ls_r) es_i,
        ecdh (getPublicKey es_i) es_r,
        ecdh (getPublicKey es_r) ls_i with
  | Some _, Some _, Some _ =>
      exists i3 r3 m1 m2 m3,
        handshake ls_i es_i ls_r es_r = Some (i3, r3, [m1; m2; m3]) /\
        (length m1 = 50 /\ length m2 = 50 /\ length m3 = 66) /\
        linked i3 r3 /\
        agreed ls_i es_i ls_r es_r i3 r3
  | _, _, _ => handshake ls_i es_i ls_r es_r = None
  end.
Proof.
  unfold handshake.
  (* act 1, initiator *)
  destruct (ecdh (getPublicKey ls_r) es_i) as [ss1|] eqn:E1.
  2: { unfold initiatorAct1, _initialize, new. exec. rewrite E1. reflexivity. }
  next_act.
  { unfold initiatorAct1, _initialize, new. exec. rewrite E1. exec. reflexivity. }
  rewrite O; clear O.
  (* act 1, responder *)
  next_act.
  { unfold receiveAct1, _initialize, new.
    match goal with
    | |- context [Buf.slice 1 34 (Buf.alloc 1 ++ getPublicKey ?e ++ ccpEncrypt ?k ?n ?ad _)] =>
        destruct (act12_message pub_length ccp_length k n ad e) as (L & P1 & P2 & P3)
    end.
    rewrite L, P1, P2, P3. cbn [Nat.eqb].
    exec. rewrite ecdh_comm, E1. exec. rewrite ccp_roundtrip. exec. reflexivity. }
  rewrite O; clear O.
  (* act 2, responder *)
  destruct (ecdh (getPublicKey es_i) es_r) as [ss2|] eqn:E2.
  2: { cbv beta iota. unfold recieveAct2. exec. rewrite E2. reflexivity. }
  next_act.
  { unfold recieveAct2. exec. rewrite E2. exec. reflexivity. }
  rewrite O; clear O.
  (* act 2, initiator *)
  next_act.
  { unfold initiatorAct2.
    match goal with
    | |- context [Buf.slice 1 34 (Buf.alloc 1 ++ getPublicKey ?e ++ ccpEncrypt ?k ?n ?ad _)] =>
        destruct (act12_message pub_length ccp_length k n ad e) as (L & P1 & P2 & P3)
    end.
    rewrite L, P1, P2, P3. cbn [Nat.eqb].
    exec. rewrite ecdh_comm, E2. exec. rewrite ccp_roundtrip. exec. reflexivity. }
  rewrite O; clear O.
  (* act 3, initiator *)
  destruct (ecdh (getPublicKey es_r) ls_i) as [ss3|] eqn:E3.
  2: { cbv beta iota. unfold initiatorAct3. exec. rewrite E3. reflexivity. }
  next_act.
  { unfold initiatorAct3. exec. rewrite E3. exec. reflexivity. }
  rewrite O; clear O.
  (* act 3, responder *)
  next_act.
  { unfold receiveAct3.
    match goal with
    | |- context [Buf.slice 1 50 (Buf.alloc 1 ++ ccpEncrypt ?k ?n ?ad (getPublicKey ?p) ++
                                 ccpEncrypt ?k' ?n' ?ad' _)] =>
        destruct (act3_message pub_length ccp_length k n ad k' n' ad' p) as (L & P1 & P2 & P3)
    end.
    rewrite L, P1, P2, P3. cbn [Nat.eqb].
    exec. rewrite ccp_roundtrip. exec. rewrite ecdh_comm, E3. exec.
    rewrite ccp_roundtrip. exec. reflexivity. }
  rewrite O; clear O.
  cbv beta iota.
  do 5 eexists. split; [reflexivity|].
  split.
  { cbn [Buf.alloc repeat app length].
    rewrite !length_app, !ccp_length, !pub_length. repeat split. }
  split.
  { eexists (Cipher _ _ 0), (Cipher _ _ 0).
    unfold sending, receiving. cbn [sk rk ck sn rn key chain count].
    repeat split; reflexivity. }
  unfold agreed. cbn [rpk repk h tempK1 tempK2 tempK3].
  repeat split; try reflexivity. discriminate.
Qed.

End HandshakeRun.


(* ================================================================= *)
(** ** The concrete instance satisfies the laws *)

Module RefFacts.

(** The hash functions on published vectors: FIPS 180-4 ("abc"), RFC 5869
    (test case 3, whose 42 bytes are the start of the 64), and the [ck]
    and [h] that BOLT #8 lists for the initiator after initialization. *)
Example sha256_abc :
  SHA256.hash (Buf.from "abc") =
  Buf.from_hex "ba7816bf8f01cfea414140de5dae2223b00361a396177a9cb410ff61f20015ad".
Proof. vm_compute. reflexivity. Qed.

Example hkdf_rfc5869 :
  firstn 42 (HKDF.hkdf [] (repeat x0b 22)) =
  Buf.from_hex
    "8da4e775a563c18f715f802a063c5a31b8a11f5c5ee1879ec3454e5f3c738d2d9d201395faa4b61a96c8".
Proof. vm_compute. reflexivity. Qed.

Example bolt8_initialize :
  ck (final (_initialize (crypto := Ref.crypto) Vectors.responder_pub Vectors.initiator0)) =
    Some (Buf.from_hex "2640f52eebcd9e882958951c794250eedb28002c05d7dc2ea0f195406042caf1") /\
  h (final (_initialize (crypto := Ref.crypto) Vectors.responder_pub Vectors.initiator0)) =
    Some (Buf.from_hex "8401b3fdcaaa710b5405400536a3d5fd7792fe8e7fe29cd8b687216fe323ecbd").
Proof. vm_compute. split; reflexivity. Qed.

(** The transport keys of the BOLT #8 vectors are the two halves of
    [hkdf(ck, empty)], first [sk] then [rk] for the initiator, and the
    first sending rotation gives the [ck] and [sk] that BOLT #8 lists. *)
Example bolt8_transport_keys :
  sk Vectors.bolt8_initiator =
    Some (firstn 32 (HKDF.hkdf (Vectors.buffer_of (ck Vectors.bolt8_initiator)) [])) /\
  rk Vectors.bolt8_initiator =
    Some (skipn 32 (HKDF.hkdf (Vectors.buffer_of (ck Vectors.bolt8_initiator)) [])).
Proof. vm_compute. split; reflexivity. Qed.

Example bolt8_rotation :
  ck (final (_rotateSendingKeys (crypto := Ref.crypto) Vectors.bolt8_initiator)) =
    Some (Buf.from_hex "cc2c6e467efc8067720c2d09c139d1f77731893aad1defa14f9bf3c48d3f1d31") /\
  sk (final (_rotateSendingKeys (crypto := Ref.crypto) Vectors.bolt8_initiator)) =
    Some (Buf.from_hex "3fbdc101abd1132ca3a0ae34a669d8d9ba69a587e0bb4ddd59524541cf4813d8").
Proof. vm_compute. split; reflexivity. Qed.

Lemma hash_length m : length (SHA256.hash m) = 32.
Proof. reflexivity. Qed.

Lemma hmac_length k m : length (HKDF.hmac k m) = 32.
Proof. apply hash_length. Qed.

Lemma hkdf_length salt ikm : length (HKDF.hkdf salt ikm) = 64.
Proof. unfold HKDF.hkdf. now rewrite length_app, !hmac_length. Qed.

Lemma pad32_length b : length (Ref.pad32 b) = 32.
Proof.
  unfold Ref.pad32. rewrite length_firstn, length_app, repeat_length. lia.
Qed.

Lemma public_key_length priv : length (Ref.public_key priv) = 33.
Proof. unfold Ref.public_key. cbn [length]. now rewrite pad32_length. Qed.

Lemma xor_byte_comm x y : Buf.xor_byte x y = Buf.xor_byte y x.
Proof. unfold Buf.xor_byte. now rewrite N.lxor_comm. Qed.

Lemma xor_comm a : forall b, Buf.xor a b = Buf.xor b a.
Proof.
  induction a as [|x a IH]; intros [|y b]; cbn [Buf.xor]; try reflexivity.
  now rewrite xor_byte_comm, IH.
Qed.

Lemma shared_secret_comm a b :
  Ref.shared_secret (Ref.public_key a) b = Ref.shared_secret (Ref.public_key b) a.
Proof.
  unfold Ref.shared_secret. rewrite !public_key_length.
  unfold Ref.public_key. cbn [tl Nat.eqb]. now rewrite xor_comm.
Qed.

Lemma tag_length k n ad pt : length (Ref.tag k n ad pt) = 16.
Proof. unfold Ref.tag. rewrite length_firstn, hmac_length. reflexivity. Qed.

Lemma seal_length k n ad pt : length (Ref.seal k n ad pt) = length pt + 16.
Proof. unfold Ref.seal. now rewrite length_app, tag_length. Qed.

Lemma eqb_refl b : Buf.eqb b b = true.
Proof.
  induction b as [|x b IH]; [reflexivity|].
  cbn [Buf.eqb]. now rewrite (Byte.byte_dec_lb eq_refl), IH.
Qed.

Lemma open_seal k n ad pt : Ref.open k n ad (Ref.seal k n ad pt) = Some pt.
Proof.
  unfold Ref.open. rewrite seal_length.
  replace (length pt + 16 - 16) with (length pt) by lia.
  unfold Ref.seal.
  rewrite BufFacts.firstn_exact, BufFacts.skipn_exact by reflexivity.
  rewrite eqb_refl.
  replace (16 <=? length pt + 16) with true by (symmetry; apply Nat.leb_le; lia).
  reflexivity.
Qed.

End RefFacts.

(* ================================================================= *)
(** ** The properties on the concrete run *)

Section Instances.

#[local] Existing Instance Ref.crypto.

(** The six acts of the concrete run, one by one. *)
Lemma run_act1 :
  initiatorAct1 (lpk (new Ref.responder_ls Ref.responder_es))
                (new Ref.initiator_ls Ref.initiator_es) = Vectors.act1.
Proof. vm_compute. reflexivity. Qed.

Lemma run_recv1 :
  receiveAct1 Vectors.msg1 (new Ref.responder_ls Ref.responder_es) = Vectors.recv1.
Proof. vm_compute. reflexivity. Qed.

Lemma run_act2 : recieveAct2 (final Vectors.recv1) = Vectors.act2.
Proof. vm_compute. reflexivity. Qed.

Lemma run_recv2 : initiatorAct2 Vectors.msg2 (final Vectors.act1) = Vectors.recv2.
Proof. vm_compute. reflexivity. Qed.

Lemma run_act3 : initiatorAct3 (final Vectors.recv2) = Vectors.act3.
Proof. vm_compute. reflexivity. Qed.

Lemma run_recv3 : receiveAct3 Vectors.msg3 (final Vectors.act2) = Vectors.recv3.
Proof. vm_compute. reflexivity. Qed.

(** C1 on the BOLT #8 key pairs. *)
Lemma handshake_keys_agree_witness :
  sk (final Vectors.act3) = rk (final Vectors.recv3) /\
  rk (final Vectors.act3) = sk (final Vectors.recv3).
Proof.
  pose proof (handshake_keys_agree (crypto := Ref.crypto)
                RefFacts.public_key_length RefFacts.shared_secret_comm
                RefFacts.seal_length RefFacts.open_seal RefFacts.hkdf_length
                Ref.initiator_ls Ref.initiator_es Ref.responder_ls Ref.responder_es
                Vectors.msg1 Vectors.msg2 Vectors.msg3) as H.
  cbv zeta in H.
  rewrite run_act1, run_recv1, run_act2, run_recv2, run_act3, run_recv3 in H.
  destruct H as (H1 & H2 & _); try reflexivity.
  split; assumption.
Defined.

(** C2 as stated fails: after [_initialize] with the responder's public
    key of the BOLT #8 vectors, [ck] is [sha256(protocolName)] and differs
    from [h]. *)
Lemma initialize_ck_differs_from_h :
  ck (final (_initialize Vectors.responder_pub Vectors.initiator0)) <>
  h (final (_initialize Vectors.responder_pub Vectors.initiator0)).
Proof. vm_compute. discriminate. Qed.

Lemma transport_initiator3 : transport (final Vectors.act3).
Proof.
  rewrite <- run_act3. apply transport_initiator with (m := Vectors.msg3).
  rewrite run_act3. reflexivity.
Defined.

Lemma transport_responder3 : transport (final Vectors.recv3).
Proof.
  rewrite <- run_recv3. apply transport_responder.
  rewrite run_recv3. reflexivity.
Defined.

(** C3 on the initiator right after the handshake, sending one frame. *)
Lemma nonce_increment_and_rotation_witness :
  exists c r,
    sending (final Vectors.act3) c /\ receiving (final Vectors.act3) r /\
    _incrementSendingNonce (final Vectors.act3) =
      Outcome (Return (count c + 1)%N)
              (set_sn (Some (counter_nonce (count c + 1))) (final Vectors.act3)) [] /\
    schedule (key c) (count c)
             (seals (perform_all [Send Vectors.hello] (final Vectors.act3))).
Proof.
  destruct (nonce_increment_and_rotation (crypto := Ref.crypto)
              (final Vectors.act3) Vectors.hello [] [Send Vectors.hello]
              transport_initiator3)
    as (c & r & Hs & Hr & (_ & Hinc & _) & _ & _ & _ & _ & _ & Hsched & _).
  exists c, r. repeat split; try apply Hs; try apply Hr; assumption.
Defined.

(** C4 on the concrete run: the responder reads back the initiator's
    first frame. *)
Lemma frame_roundtrip_witness :
  exists frame,
    result (encryptMessage Vectors.hello (final Vectors.act3)) = Return frame /\
    result (decryptLength (firstn 18 frame) (final Vectors.recv3)) = Return 5%N /\
    result (decryptMessage (skipn 18 frame)
              (final (decryptLength (firstn 18 frame) (final Vectors.recv3)))) =
      Return Vectors.hello.
Proof.
  apply (frame_roundtrip (crypto := Ref.crypto) RefFacts.seal_length RefFacts.open_seal
           (final Vectors.act3) (final Vectors.recv3) Vectors.hello
           transport_initiator3 transport_responder3).
  - reflexivity.
  - reflexivity.
  - vm_compute. discriminate.
Defined.


(** C7 on the initiator's first frame. *)
Lemma encryptMessage_frame_witness :
  exists frame,
    result (encryptMessage Vectors.hello (final Vectors.act3)) = Return frame /\
    length frame = 39.
Proof.
  destruct (encryptMessage_frame (crypto := Ref.crypto) RefFacts.seal_length
              (final Vectors.act3) Vectors.hello transport_initiator3)
    as (c & _ & _ & Hres & _ & _ & _ & _ & Hlen & _).
  - vm_compute. discriminate.
  - eexists. split; [exact Hres | exact Hlen].
Defined.

(** C9 as stated fails.  On the initiator of the BOLT #8 vectors after its
    act 3, the sending key that a rotation derives depends on whether the
    receiving key was rotated before, and so does the receiving key; the
    two orders of a sending and a receiving rotation end with different
    [sk] and different [rk]. *)
Lemma rotation_order_matters :
  sk (final (_rotateSendingKeys (final (_rotateRecievingKeys Vectors.bolt8_initiator)))) <>
  sk (final (_rotateSendingKeys Vectors.bolt8_initiator)) /\
  rk (final (_rotateRecievingKeys (final (_rotateSendingKeys Vectors.bolt8_initiator)))) <>
  rk (final (_rotateRecievingKeys Vectors.bolt8_initiator)) /\
  sk (final (_rotateRecievingKeys (final (_rotateSendingKeys Vectors.bolt8_initiator)))) <>
  sk (final (_rotateSendingKeys (final (_rotateRecievingKeys Vectors.bolt8_initiator)))) /\
  rk (final (_rotateRecievingKeys (final (_rotateSendingKeys Vectors.bolt8_initiator)))) <>
  rk (final (_rotateSendingKeys (final (_rotateRecievingKeys Vectors.bolt8_initiator)))).
Proof. vm_compute. repeat split; discriminate. Qed.

(** C10 on a 50-byte message with version byte 1. *)
Lemma bad_version_keeps_writes_witness :
  result (receiveAct1 Vectors.bad_version Vectors.responder0) =
    Throw (Error "ACT1_BAD_VERSION") /\
  repk (final (receiveAct1 Vectors.bad_version Vectors.responder0)) =
    Some (Buf.alloc 33) /\
  repk Vectors.responder0 = None /\
  final (initiatorAct2 Vectors.bad_version (final Vectors.act1)) =
    set_repk (Some (Buf.alloc 33)) (final Vectors.act1).
Proof.
  destruct (bad_version_keeps_writes (crypto := Ref.crypto) Vectors.bad_version Vectors.responder0)
    as (H1 & _); [reflexivity | discriminate |].
  destruct (bad_version_keeps_writes (crypto := Ref.crypto) Vectors.bad_version (final Vectors.act1))
    as (_ & H2); [reflexivity | discriminate |].
  rewrite H1, H2. repeat split.
Defined.

End Instances.
